(** * The Tombola family of random pickers (11-iface-abc.ipynb)

    A shallow embedding of the [Tombola] abstract base class, of its two
    concrete subclasses [BingoCage] and [LotteryBlower], and of the virtual
    subclass [TomboList], together with the properties their users rely on.

    Python objects become explicit states, methods become functions from the
    state (and the random source) to an outcome, the new state and the new
    random source.  Exceptions are outcomes, not partiality. *)

From stdpp Require Import base numbers list sorting strings.

Open Scope nat_scope.

(** ** Python exceptions *)

(** The exception classes the notebook's code can raise or catch. *)
Inductive exn : Set :=
  | LookupError
  | IndexError
  | KeyError
  | ValueError
  | AttributeError.

(** [isinstance(e, LookupError)]: in Python [IndexError] and [KeyError] are
    subclasses of [LookupError], so [except LookupError] catches all three. *)
Definition isinstance_LookupError (e : exn) : bool :=
  match e with
  | LookupError | IndexError | KeyError => true
  | ValueError | AttributeError => false
  end.

(** What a call does: it returns a value or raises. *)
Inductive outcome (A : Type) : Type :=
  | Returns (a : A)
  | Raises (e : exn).
Arguments Returns {A} a.
Arguments Raises {A} e.

(** ** The random source *)

(** A random source is an infinite tape of raw draws and a read position.
    Quantifying over every tape covers every run of [random] and of
    [random.SystemRandom]. *)
Record Rng : Type := mkRng { tape : nat → nat; cursor : nat }.

(** [Random._randbelow(n)], for [n > 0]: one draw, reduced to [[0, n)]. *)
Definition _randbelow (n : nat) (g : Rng) : nat * Rng :=
  (tape g (cursor g) mod n, mkRng (tape g) (S (cursor g))).

(** [random.randrange(stop)]: [ValueError] on an empty range, before any
    draw is made. *)
Definition randrange (stop : nat) (g : Rng) : outcome nat * Rng :=
  if decide (0 < stop) then
    let '(r, g') := _randbelow stop g in (Returns r, g')
  else (Raises ValueError, g).

(** ** Built-in list operations *)

Section builtins.
Context {A : Type}.

(** [bool(seq)]: a list or tuple is truthy when it is not empty. *)
Definition bool_of_seq (l : list A) : bool :=
  match l with [] => false | _ :: _ => true end.

(** [l.extend(items)] *)
Definition list_extend (l items : list A) : list A := l ++ items.

(** [l.pop()]: removes and returns the last element, [IndexError] on an
    empty list. *)
Definition list_pop (l : list A) : outcome A * list A :=
  match last l with
  | Some x => (Returns x, removelast l)
  | None => (Raises IndexError, l)
  end.

(** [l.pop(i)] for [i >= 0]: removes and returns the element at [i],
    [IndexError] when [i] is out of range. *)
Definition list_pop_at (i : nat) (l : list A) : outcome A * list A :=
  match l !! i with
  | Some x => (Returns x, delete i l)
  | None => (Raises IndexError, l)
  end.

(** [x[i], x[j] = x[j], x[i]]: the right-hand side is read first, then
    [x[i]] and [x[j]] are assigned in that order.  [shuffle] only calls it
    with both indices in range (see [shuffle_from_in_range]). *)
Definition swap (x : list A) (i j : nat) : list A :=
  match x !! j, x !! i with
  | Some xj, Some xi => <[j:=xi]> (<[i:=xj]> x)
  | _, _ => x
  end.

(** The loop of [Random.shuffle]:
    [for i in reversed(range(1, len(x))): j = randbelow(i+1); swap]. *)
Fixpoint shuffle_from (i : nat) (x : list A) (g : Rng) : list A * Rng :=
  match i with
  | 0 => (x, g)
  | S i' =>
      let '(j, g') := _randbelow (S i) g in
      shuffle_from i' (swap x i j) g'
  end.

(** [Random.shuffle(x)], in place: the new contents of [x]. *)
Definition shuffle (x : list A) (g : Rng) : list A * Rng :=
  shuffle_from (length x - 1) x g.
End builtins.

(** ** The classes *)

Section Tombola.
Context {Item : Type} (le : relation Item) `{!RelDecision le}.

(** [sorted(items)] by the items' natural order. *)
Definition sorted (items : list Item) : list Item := merge_sort le items.

(** What a method call yields: outcome, new [self], new random source. *)
Definition call (T A : Type) : Type := (outcome A * T * Rng)%type.

(** The abstract methods of [Tombola]. *)
Class Tombola (T : Type) : Type := {
  load : T → list Item → Rng → call T unit;
  pick : T → Rng → call T Item;
}.

(** The loop of [Tombola.inspect]:
    [while True: try: items.append(self.pick()) except LookupError: break].
    [None] when the fuel runs out. *)
Fixpoint pick_until_LookupError {T : Type} (pick : T → Rng → call T Item)
    (fuel : nat) (items : list Item) (self : T) (g : Rng)
    : option (call T (list Item)) :=
  match fuel with
  | 0 => None
  | S fuel' =>
      match pick self g with
      | (Returns x, self', g') =>
          pick_until_LookupError pick fuel' (items ++ [x]) self' g'
      | (Raises e, self', g') =>
          if isinstance_LookupError e
          then Some (Returns items, self', g')
          else Some (Raises e, self', g')
      end
  end.

(** [Tombola.inspect] *)
Definition Tombola_inspect `{Tombola T} (fuel : nat) (self : T) (g : Rng)
    : option (call T (list Item)) :=
  match pick_until_LookupError pick fuel [] self g with
  | None => None
  | Some (Raises e, self', g') => Some (Raises e, self', g')
  | Some (Returns items, self', g') =>
      match load self' items g' with
      | (Raises e, self'', g'') => Some (Raises e, self'', g'')
      | (Returns _, self'', g'') => Some (Returns (sorted items), self'', g'')
      end
  end.

(** [Tombola.loaded]: [return bool(self.inspect())] *)
Definition Tombola_loaded `{Tombola T} (fuel : nat) (self : T) (g : Rng)
    : option (call T bool) :=
  match Tombola_inspect fuel self g with
  | None => None
  | Some (Raises e, self', g') => Some (Raises e, self', g')
  | Some (Returns t, self', g') => Some (Returns (bool_of_seq t), self', g')
  end.

(** *** BingoCage *)

(** [_randomizer] is a [random.SystemRandom()]: it holds no state of its
    own and reads the system's entropy, the [Rng] passed to each call. *)
Record BingoCage : Type := mkBingoCage { _items : list Item }.

Definition BingoCage_load (self : BingoCage) (items : list Item) (g : Rng)
    : call BingoCage unit :=
  let extended := list_extend (_items self) items in
  let '(shuffled, g') := shuffle extended g in
  (Returns (), mkBingoCage shuffled, g').

Definition BingoCage_pick (self : BingoCage) (g : Rng)
    : call BingoCage Item :=
  match list_pop (_items self) with
  | (Returns x, rest) => (Returns x, mkBingoCage rest, g)
  | (Raises e, rest) =>
      match e with
      | IndexError => (Raises LookupError, mkBingoCage rest, g)
      | _ => (Raises e, mkBingoCage rest, g)
      end
  end.

(** [BingoCage.__init__] *)
Definition BingoCage_init (items : list Item) (g : Rng)
    : call BingoCage unit :=
  BingoCage_load (mkBingoCage []) items g.

(** [BingoCage.__call__]: [self.pick()] with no [return], so the call
    evaluates to [None] ([option Item] is the Python value returned). *)
Definition BingoCage_call (self : BingoCage) (g : Rng)
    : call BingoCage (option Item) :=
  match BingoCage_pick self g with
  | (Returns _, self', g') => (Returns None, self', g')
  | (Raises e, self', g') => (Raises e, self', g')
  end.

#[export] Instance BingoCage_Tombola : Tombola BingoCage :=
  {| load := BingoCage_load; pick := BingoCage_pick |}.

(** [BingoCage] inherits [inspect] and [loaded]. *)
Definition BingoCage_inspect := Tombola_inspect (T := BingoCage).
Definition BingoCage_loaded := Tombola_loaded (T := BingoCage).

(** *** LotteryBlower *)

Record LotteryBlower : Type := mkLotteryBlower { _balls : list Item }.

Definition LotteryBlower_init (iterable : list Item) : LotteryBlower :=
  mkLotteryBlower iterable.

Definition LotteryBlower_load (self : LotteryBlower) (iterable : list Item)
    (g : Rng) : call LotteryBlower unit :=
  (Returns (), mkLotteryBlower (list_extend (_balls self) iterable), g).

Definition LotteryBlower_pick (self : LotteryBlower) (g : Rng)
    : call LotteryBlower Item :=
  match randrange (length (_balls self)) g with
  | (Raises e, g') =>
      match e with
      | ValueError => (Raises LookupError, self, g')
      | _ => (Raises e, self, g')
      end
  | (Returns position, g') =>
      match list_pop_at position (_balls self) with
      | (Returns x, rest) => (Returns x, mkLotteryBlower rest, g')
      | (Raises e, rest) => (Raises e, mkLotteryBlower rest, g')
      end
  end.

Definition LotteryBlower_loaded (self : LotteryBlower) (g : Rng)
    : call LotteryBlower bool :=
  (Returns (bool_of_seq (_balls self)), self, g).

Definition LotteryBlower_inspect (self : LotteryBlower) (g : Rng)
    : call LotteryBlower (list Item) :=
  (Returns (sorted (_balls self)), self, g).

#[export] Instance LotteryBlower_Tombola : Tombola LotteryBlower :=
  {| load := LotteryBlower_load; pick := LotteryBlower_pick |}.

(** *** TomboList *)

(** [class TomboList(list)]: the instance is the list. *)
Definition TomboList : Type := list Item.

(** [TomboList(iterable)] *)
Definition TomboList_init (iterable : list Item) : TomboList := iterable.

Definition TomboList_pick (self : TomboList) (g : Rng)
    : call TomboList Item :=
  if bool_of_seq self then
    match randrange (length self) g with
    | (Raises e, g') => (Raises e, self, g')
    | (Returns position, g') =>
        match list_pop_at position self with
        | (Returns x, rest) => (Returns x, rest, g')
        | (Raises e, rest) => (Raises e, rest, g')
        end
    end
  else (Raises LookupError, self, g).

Definition TomboList_loaded (self : TomboList) (g : Rng)
    : call TomboList bool :=
  (Returns (bool_of_seq self), self, g).

Definition TomboList_inspect (self : TomboList) (g : Rng)
    : call TomboList (list Item) :=
  (Returns (sorted self), self, g).

(** The names bound in the body of [class TomboList].  The statement
    [load = list.extend] is indented into the body of [pick], after the
    [if]/[else] that always returns or raises: it binds no class
    attribute. *)
Definition TomboList_namespace : list string :=
  ["pick"; "loaded"; "inspect"]%string.

(** The public methods of the built-in [list]. *)
Definition list_namespace : list string :=
  ["append"; "clear"; "copy"; "count"; "extend"; "index"; "insert"; "pop";
   "remove"; "reverse"; "sort"]%string.

(** [TomboList.__mro__] is [(TomboList, list, object)]: [Tombola] is only
    registered, and gives no method.  [object] has no public method. *)
Definition TomboList_mro : list (list string) :=
  [TomboList_namespace; list_namespace; []].

(** Attribute lookup on a [TomboList] instance. *)
Definition TomboList_hasattr (name : string) : bool :=
  existsb (existsb (String.eqb name)) TomboList_mro.

(** [t.load(items)]: the attribute lookup comes first. *)
Definition TomboList_load (self : TomboList) (items : list Item) (g : Rng)
    : call TomboList unit :=
  if TomboList_hasattr "load"%string
  then (Returns (), list_extend self items, g)
  else (Raises AttributeError, self, g).
(** ** Vocabulary of the properties *)

(** [pick] is lossless with respect to a view [contents] of the storage: a
    returned item is taken from the storage and nothing else changes, and
    the only failure is [LookupError], on empty storage, leaving the
    instance as it was. *)
Definition lossless {T : Type} (contents : T → list Item)
    (pick : T → Rng → call T Item) : Prop :=
  ∀ self g,
    match pick self g with
    | (Returns x, self', _) => contents self ≡ₚ x :: contents self'
    | (Raises e, self', _) =>
        e = LookupError ∧ contents self = [] ∧ self' = self
    end.

(** Picking from [self] until [LookupError] ends within [fuel] picks, leaves
    the storage empty and has handed out the items [S], each as many times
    as it occurs in [S]. *)
Definition drains_to {T : Type} (contents : T → list Item)
    (pick : T → Rng → call T Item) (fuel : nat) (self : T) (g : Rng)
    (S : list Item) : Prop :=
  ∃ out self' g',
    pick_until_LookupError pick fuel [] self g = Some (Returns out, self', g')
    ∧ out ≡ₚ S
    ∧ contents self' = [].

(** [pick] returns the items [xs] one call after the other, and takes the
    instance and the random source from [self] and [g] to [self'] and
    [g']. *)
Inductive picks_run {T : Type} (pick : T → Rng → call T Item)
    : T → Rng → list Item → T → Rng → Prop :=
  | picks_run_nil self g : picks_run pick self g [] self g
  | picks_run_cons self g x self1 g1 xs self' g' :
      pick self g = (Returns x, self1, g1) →
      picks_run pick self1 g1 xs self' g' →
      picks_run pick self g (x :: xs) self' g'.

(** The outcome of a call is the exception [e]. *)
Definition raises {T A : Type} (c : call T A) (e : exn) : Prop :=
  c.1.1 = Raises e.
End Tombola.

Arguments BingoCage Item : clear implicits.
Arguments LotteryBlower Item : clear implicits.
Arguments TomboList Item : clear implicits.

(** ** Sample data *)

(** The items of the notebook's scenario, with a duplicate. *)
Definition sample_items : list Z := [1; 1; 2; 3]%Z.

(** One run of the random source among all. *)
Definition sample_rng : Rng := mkRng (λ n, 7 * n + 3) 0.

(** A faulty picker, for the examples only (no class of the notebook
    behaves so): it hands out its items from the front, and with nothing
    left its [pick] raises [ValueError] where [LookupError] is expected. *)
Record Faulty : Type := mkFaulty { faulty_items : list Z }.

Definition Faulty_load (self : Faulty) (items : list Z) (g : Rng)
    : call Faulty unit :=
  (Returns (), mkFaulty (faulty_items self ++ items), g).

Definition Faulty_pick (self : Faulty) (g : Rng) : call Faulty Z :=
  match faulty_items self with
  | [] => (Raises ValueError, self, g)
  | x :: rest => (Returns x, mkFaulty rest, g)
  end.

Definition Faulty_Tombola : Tombola Faulty :=
  {| load := Faulty_load; pick := Faulty_pick |}.

From stdpp Require Import pretty.

(** ** Clients of a picker *)

(** A random source whose next draws are [draws], in this order. *)
Definition reads (g : Rng) (draws : list nat) : Prop :=
  ∀ k d, draws !! k = Some d → tape g (cursor g + k) = d.

(** The random source that starts with [draws] (and goes on with zeros). *)
Definition rng_of (draws : list nat) : Rng :=
  mkRng (λ k, default 0 (draws !! k)) 0.

Section clients.
Context {Item : Type}.

(** [load] keeps what is stored and adds the given items, and does not
    fail. *)
Definition conserving {T : Type} (contents : T → list Item)
    (load : T → list Item → Rng → call T unit) : Prop :=
  ∀ self items g,
    ∃ self' g',
      load self items g = (Returns (), self', g')
      ∧ contents self' ≡ₚ contents self ++ items.

(** What a client asks of a picker. *)
Inductive request : Type :=
  | Load (items : list Item)
  | Pick.

(** All the items a list of requests loads. *)
Fixpoint loaded_by (requests : list request) : list Item :=
  match requests with
  | [] => []
  | Load items :: rest => items ++ loaded_by rest
  | Pick :: rest => loaded_by rest
  end.

(** A client that calls [load] and [pick] as asked, keeps the picked items,
    goes on when [pick] finds nothing ([except LookupError: pass]) and stops
    at any other exception. *)
Fixpoint serve {T : Type} (load : T → list Item → Rng → call T unit)
    (pick : T → Rng → call T Item) (requests : list request)
    (picked : list Item) (self : T) (g : Rng) : call T (list Item) :=
  match requests with
  | [] => (Returns picked, self, g)
  | Load items :: rest =>
      match load self items g with
      | (Returns _, self', g') => serve load pick rest picked self' g'
      | (Raises e, self', g') => (Raises e, self', g')
      end
  | Pick :: rest =>
      match pick self g with
      | (Returns x, self', g') =>
          serve load pick rest (picked ++ [x]) self' g'
      | (Raises e, self', g') =>
          if isinstance_LookupError e
          then serve load pick rest picked self' g'
          else (Raises e, self', g')
      end
  end.
End clients.

(** *** Fake *)

(** [class Fake(Tombola)]: an instance has no attribute of its own. *)
Definition Fake : Type := unit.

(** [Fake.pick]: [return 13] *)
Definition Fake_pick (self : Fake) (g : Rng) : call Fake Z :=
  (Returns 13%Z, self, g).

(** ** Class statements and the [abc] machinery *)

(** What the object protocols raise beside the exceptions of [exn]. *)
Inductive raised : Set :=
  | TypeError
  | OverflowError
  | Exn (e : exn).

(** What a call through such a protocol does. *)
Inductive result (A : Type) : Type :=
  | Done (a : A)
  | Throws (r : raised).
Arguments Done {A} a.
Arguments Throws {A} r.

(** The classes the notebook's class statements start from. *)
Inductive builtin : Set :=
  | ABC_class
  | list_class
  | object_class.

(** A class: a built-in one, or a class statement with its name, its base,
    the names its body binds to functions decorated with
    [@abc.abstractmethod], and the names it binds to plain functions (each
    name once).  Every class statement of the notebook names one base
    ([object] when none is written), so a class and its bases form a chain;
    a class statement with several bases is not of this type. *)
Inductive class_stmt : Type :=
  | Builtin_class (b : builtin)
  | mkClass (name : string) (base : class_stmt)
      (abstract concrete : list string).

Definition Tombola_class : class_stmt :=
  mkClass "Tombola" (Builtin_class ABC_class)
    ["load"; "pick"] ["loaded"; "inspect"].

Definition Fake_class : class_stmt :=
  mkClass "Fake" Tombola_class [] ["pick"].

Definition BingoCage_class : class_stmt :=
  mkClass "BingoCage" Tombola_class []
    ["__init__"; "load"; "pick"; "__call__"].

Definition LotteryBlower_class : class_stmt :=
  mkClass "LotteryBlower" Tombola_class []
    ["__init__"; "load"; "pick"; "loaded"; "inspect"].


#[export] Instance builtin_eq_dec : EqDecision builtin.
Proof. solve_decision. Defined.

#[export] Instance class_stmt_eq_dec : EqDecision class_stmt.
Proof. solve_decision. Defined.


(** The metaclass of the class is [ABCMeta]: it comes down from [abc.ABC],
    and a class that does not inherit from it has the metaclass [type]. *)
Fixpoint uses_ABCMeta (c : class_stmt) : bool :=
  match c with
  | Builtin_class ABC_class => true
  | Builtin_class _ => false
  | mkClass _ base _ _ => uses_ABCMeta base
  end.

(** [cls.__abstractmethods__], which [ABCMeta] computes when the class is
    made: the abstract names of the body, and the abstract names of the base
    that the body does not bind.  A class made by [type] has none, whatever
    its body decorates. *)
Fixpoint abstractmethods (c : class_stmt) : list string :=
  match c with
  | Builtin_class _ => []
  | mkClass _ base abstract concrete =>
      if uses_ABCMeta base
      then abstract
           ++ filter (λ name, name ∉ abstract ++ concrete)
                (abstractmethods base)
      else []
  end.

(** What a name is found bound to. *)
Inductive found : Set :=
  | Abstract
  | Concrete.

(** The lookup of a public name on a class (the names that [object] gives
    every class, all with double underscores, are left out): the body
    first, then the base. *)
Fixpoint class_lookup (c : class_stmt) (name : string) : option found :=
  match c with
  | Builtin_class list_class =>
      if decide (name ∈ list_namespace) then Some Concrete else None
  | Builtin_class _ => None
  | mkClass _ base abstract concrete =>
      if decide (name ∈ abstract) then Some Abstract
      else if decide (name ∈ concrete) then Some Concrete
      else class_lookup base name
  end.


(** [cls()], as far as the check of abstract methods goes: [TypeError] when
    some are left
    ([Can't instantiate abstract class ... with abstract methods ...]). *)
Definition instantiate (c : class_stmt) : result unit :=
  if decide (abstractmethods c = []) then Done () else Throws TypeError.



(** ** Integer positions in a list *)

(** The least and the greatest [Py_ssize_t], on a 64-bit build of Python as
    the one the notebook ran on. *)
Definition PY_SSIZE_T_MIN : Z := (- 2 ^ 63)%Z.

Definition PY_SSIZE_T_MAX : Z := (2 ^ 63 - 1)%Z.

Section positions.
Context {A : Type}.

(** The index an integer position stands for in a list of length [n]:
    [position] itself from [0] to [n - 1], [n + position] from [-n] to
    [-1], none otherwise. *)
Definition list_index (n : nat) (position : Z) : option nat :=
  if decide (0 ≤ position < Z.of_nat n)%Z then Some (Z.to_nat position)
  else if decide (- Z.of_nat n ≤ position < 0)%Z
       then Some (Z.to_nat (Z.of_nat n + position))
  else None.

(** [l[position]] *)
Definition list_getitem (l : list A) (position : Z) : result A :=
  match list_index (length l) position ≫= (l !!.) with
  | Some x => Done x
  | None => Throws (Exn IndexError)
  end.

(** [l[position] = value] *)
Definition list_setitem (l : list A) (position : Z) (value : A)
    : result unit * list A :=
  match list_index (length l) position with
  | Some i => (Done (), <[i:=value]> l)
  | None => (Throws (Exn IndexError), l)
  end.

(** [del l[position]] *)
Definition list_delitem (l : list A) (position : Z) : result unit * list A :=
  match list_index (length l) position with
  | Some i => (Done (), delete i l)
  | None => (Throws (Exn IndexError), l)
  end.

(** Where [l.insert(position, value)] puts the value: a negative position
    counts from the end, and what falls outside is brought to the nearer
    end. *)
Definition insert_index (n : nat) (position : Z) : nat :=
  if decide (position < 0)%Z
  then Z.to_nat (Z.max 0 (Z.of_nat n + position))
  else Z.to_nat (Z.min position (Z.of_nat n)).

(** [l.insert(position, value)]: the position is first converted to a
    [Py_ssize_t], with [OverflowError] when it does not fit and nothing
    inserted; a list of the greatest length takes no more items
    ([OverflowError] as well). *)
Definition list_insert_at (l : list A) (position : Z) (value : A)
    : result unit * list A :=
  if decide (PY_SSIZE_T_MIN ≤ position ≤ PY_SSIZE_T_MAX)%Z then
    if decide (PY_SSIZE_T_MAX ≤ Z.of_nat (length l))%Z
    then (Throws OverflowError, l)
    else
      let i := insert_index (length l) position in
      (Done (), take i l ++ value :: drop i l)
  else (Throws OverflowError, l).
End positions.

(** ** Shuffling an object through the sequence protocol *)

Section shuffle_object.
Context {X A : Type}.
Context (len : X → nat) (getitem : X → Z → result A)
  (setitem : X → Z → A → result unit * X).

(** The loop of [Random.shuffle] on an object [x]:
    [j = randbelow(i+1); x[i], x[j] = x[j], x[i]], where [x[j]] and [x[i]]
    are read, then [x[i]] and [x[j]] are assigned.  It stops at the first
    exception. *)
Fixpoint shuffle_object_from (i : nat) (x : X) (g : Rng)
    : result unit * X * Rng :=
  match i with
  | 0 => (Done (), x, g)
  | S i' =>
      let '(j, g') := _randbelow (S i) g in
      match getitem x (Z.of_nat j) with
      | Throws r => (Throws r, x, g')
      | Done xj =>
          match getitem x (Z.of_nat i) with
          | Throws r => (Throws r, x, g')
          | Done xi =>
              match setitem x (Z.of_nat i) xj with
              | (Throws r, x1) => (Throws r, x1, g')
              | (Done _, x1) =>
                  match setitem x1 (Z.of_nat j) xi with
                  | (Throws r, x2) => (Throws r, x2, g')
                  | (Done _, x2) => shuffle_object_from i' x2 g'
                  end
              end
          end
      end
  end.

(** [random.shuffle(x)] *)
Definition shuffle_object (x : X) (g : Rng) : result unit * X * Rng :=
  shuffle_object_from (len x - 1) x g.
End shuffle_object.

(** ** The card decks *)

(** [Card = collections.namedtuple('Card', ['rank', 'suit'])] *)
Record Card : Type := mkCard { rank : string; suit : string }.

#[export] Instance Card_eq_dec : EqDecision Card.
Proof. solve_decision. Defined.

(** [[str(n) for n in range(2, 11)] + list('JQKA')] *)
Definition ranks : list string :=
  (pretty <$> seq 2 9)
  ++ ((λ c, String c EmptyString) <$> String.list_ascii_of_string "JQKA").

(** ['spades diamonds clubs hearts'.split()] *)
Definition suits : list string := String.words "spades diamonds clubs hearts".

(** [[Card(rank, suit) for suit in suits for rank in ranks]] *)
Definition cards_of (ranks suits : list string) : list Card :=
  s ← suits; r ← ranks; [mkCard r s].

(** *** FrenchDeck *)

Record FrenchDeck : Type := mkFrenchDeck { _cards : list Card }.

(** [FrenchDeck.__init__] *)
Definition FrenchDeck_init : FrenchDeck := mkFrenchDeck (cards_of ranks suits).

(** [FrenchDeck.__len__] *)
Definition FrenchDeck_len (self : FrenchDeck) : nat := length (_cards self).

(** [FrenchDeck.__getitem__], for an integer position. *)
Definition FrenchDeck_getitem (self : FrenchDeck) (position : Z)
    : result Card :=
  list_getitem (_cards self) position.

(** [set_card(deck, position, card)]: [deck._cards[position] = card] *)
Definition set_card (deck : FrenchDeck) (position : Z) (card : Card)
    : result unit * FrenchDeck :=
  let '(r, cards) := list_setitem (_cards deck) position card in
  (r, mkFrenchDeck cards).

(** The attribute [__setitem__] of the class [FrenchDeck]: the class
    statement binds none, and [FrenchDeck.__setitem__ = set_card] binds it
    afterwards. *)
Definition setter : Type := FrenchDeck → Z → Card → result unit * FrenchDeck.

Definition FrenchDeck_as_written : option setter := None.

Definition FrenchDeck_patched : option setter := Some set_card.

(** [deck[position] = card], through the class's [__setitem__], if any:
    ['FrenchDeck' object does not support item assignment] otherwise. *)
Definition FrenchDeck_setitem (__setitem__ : option setter)
    (deck : FrenchDeck) (position : Z) (card : Card)
    : result unit * FrenchDeck :=
  match __setitem__ with
  | Some f => f deck position card
  | None => (Throws TypeError, deck)
  end.

(** [shuffle(deck)] on a [FrenchDeck] *)
Definition FrenchDeck_shuffle (__setitem__ : option setter)
    (deck : FrenchDeck) (g : Rng) : result unit * FrenchDeck * Rng :=
  shuffle_object FrenchDeck_len FrenchDeck_getitem
    (FrenchDeck_setitem __setitem__) deck g.

(** *** FrenchDeck2 *)

(** The attribute [_cards] of a [FrenchDeck2]. *)
Record FrenchDeck2 : Type := mkFrenchDeck2 { FrenchDeck2_cards : list Card }.

Definition FrenchDeck2_init : FrenchDeck2 :=
  mkFrenchDeck2 (cards_of ranks suits).

Definition FrenchDeck2_len (self : FrenchDeck2) : nat :=
  length (FrenchDeck2_cards self).

Definition FrenchDeck2_getitem (self : FrenchDeck2) (position : Z)
    : result Card :=
  list_getitem (FrenchDeck2_cards self) position.

Definition FrenchDeck2_setitem (self : FrenchDeck2) (position : Z)
    (value : Card) : result unit * FrenchDeck2 :=
  let '(r, cards) := list_setitem (FrenchDeck2_cards self) position value in
  (r, mkFrenchDeck2 cards).

Definition FrenchDeck2_delitem (self : FrenchDeck2) (position : Z)
    : result unit * FrenchDeck2 :=
  let '(r, cards) := list_delitem (FrenchDeck2_cards self) position in
  (r, mkFrenchDeck2 cards).

Definition FrenchDeck2_insert (self : FrenchDeck2) (position : Z)
    (value : Card) : result unit * FrenchDeck2 :=
  let '(r, cards) := list_insert_at (FrenchDeck2_cards self) position value in
  (r, mkFrenchDeck2 cards).

(** [shuffle(deck)] on a [FrenchDeck2] *)
Definition FrenchDeck2_shuffle (deck : FrenchDeck2) (g : Rng)
    : result unit * FrenchDeck2 * Rng :=
  shuffle_object FrenchDeck2_len FrenchDeck2_getitem FrenchDeck2_setitem
    deck g.

(** * Properties *)

(** ** The built-in list operations *)

Section builtins_facts.
Context {A : Type}.
Implicit Types (l x t rest : list A) (a b : A) (g : Rng).

Lemma list_pop_nil : list_pop (@nil A) = (Raises IndexError, []).
Proof. reflexivity. Qed.

Lemma list_pop_snoc l a : list_pop (l ++ [a]) = (Returns a, l).
Proof. unfold list_pop. by rewrite last_snoc, removelast_last. Qed.

(** Every list is empty or ends with an element. *)
Lemma list_snoc_cases l : l = [] ∨ ∃ l' a, l = l' ++ [a].
Proof. induction l as [|l a _] using rev_ind; eauto. Qed.

Lemma list_pop_at_Some i l a :
  l !! i = Some a → list_pop_at i l = (Returns a, delete i l).
Proof. unfold list_pop_at. by intros ->. Qed.

Lemma _randbelow_lt n g : 0 < n → (_randbelow n g).1 < n.
Proof. intros Hn. simpl. apply Nat.mod_upper_bound. lia. Qed.

(** Overwriting one cell trades the old element for the new one. *)
Lemma insert_Permutation_cons l i a a' :
  l !! i = Some a → a :: <[i:=a']> l ≡ₚ a' :: l.
Proof.
  revert i. induction l as [|b l IH]; intros [|i] Hi; simplify_eq/=.
  - apply perm_swap.
  - rewrite perm_swap, (IH i Hi). apply perm_swap.
Qed.

Lemma swap_Permutation x i j : swap x i j ≡ₚ x.
Proof.
  unfold swap.
  destruct (x !! j) as [xj|] eqn:Hj; [|done].
  destruct (x !! i) as [xi|] eqn:Hi; [|done].
  apply (Permutation_cons_inv (a := xj)).
  assert (<[i:=xj]> x !! j = Some xj) as Hj'.
  { destruct (decide (i = j)) as [->|Hne].
    - apply list_lookup_insert_eq. by eapply lookup_lt_Some.
    - by rewrite list_lookup_insert_ne. }
  rewrite (insert_Permutation_cons _ j xj xi Hj').
  by apply insert_Permutation_cons.
Qed.

Lemma length_swap x i j : length (swap x i j) = length x.
Proof.
  unfold swap. destruct (x !! j), (x !! i); try done.
  by rewrite !length_insert.
Qed.

(** [shuffle] never indexes out of range: with [i] a valid index, the
    drawn [j] is one too, and [swap] takes its assigning branch. *)
Lemma shuffle_from_in_range x i g :
  S i < length x →
  let j := (_randbelow (S (S i)) g).1 in
  is_Some (x !! j) ∧ is_Some (x !! S i).
Proof.
  intros Hi j. split; apply lookup_lt_is_Some; [|done].
  pose proof (_randbelow_lt (S (S i)) g). lia.
Qed.

Lemma shuffle_from_Permutation i x g : (shuffle_from i x g).1 ≡ₚ x.
Proof.
  revert x g. induction i as [|i IH]; intros x g; [done|].
  simpl. rewrite IH. apply swap_Permutation.
Qed.

Lemma shuffle_Permutation x g : (shuffle x g).1 ≡ₚ x.
Proof. apply shuffle_from_Permutation. Qed.

Lemma shuffle_nil g : shuffle (@nil A) g = ([], g).
Proof. reflexivity. Qed.

Lemma bool_of_seq_false l : bool_of_seq l = false ↔ l = [].
Proof. by destruct l. Qed.

Lemma bool_of_seq_Permutation l1 l2 :
  l1 ≡ₚ l2 → bool_of_seq l1 = bool_of_seq l2.
Proof.
  intros Hp. destruct l1, l2; try done.
  - by apply Permutation_nil_cons in Hp.
  - symmetry in Hp. by apply Permutation_nil_cons in Hp.
Qed.
(** *** Every arrangement is a possible shuffle *)

Lemma swap_app_l x rest i j :
  i < length x → j < length x → swap (x ++ rest) i j = swap x i j ++ rest.
Proof.
  intros Hi Hj. unfold swap. rewrite !lookup_app_l by done.
  destruct (x !! j), (x !! i); try done.
  rewrite insert_app_l by done.
  by rewrite insert_app_l by (by rewrite length_insert).
Qed.

(** Swapping the last cell with a cell holding [b] puts [b] last. *)
Lemma swap_last x i j b :
  length x = S i → x !! j = Some b →
  ∃ x', swap x i j = x' ++ [b] ∧ length x' = i.
Proof.
  intros Hlen Hj.
  assert (swap x i j !! i = Some b) as Hb.
  { unfold swap. rewrite Hj.
    destruct (lookup_lt_is_Some_2 x i) as [xi Hi]; [lia|]. rewrite Hi.
    destruct (decide (j = i)) as [->|Hne].
    - rewrite list_lookup_insert_eq by (rewrite length_insert; lia).
      congruence.
    - rewrite list_lookup_insert_ne by done.
      apply list_lookup_insert_eq. lia. }
  pose proof (length_swap x i j) as Hlen'.
  destruct (list_snoc_cases (swap x i j)) as [Hnil|(x' & a & Hx')].
  { rewrite Hnil in Hlen'. simpl in Hlen'. lia. }
  rewrite Hx' in Hb, Hlen'. rewrite length_app in Hlen'. simpl in Hlen'.
  assert (length x' = i) as Hi' by lia.
  rewrite lookup_app_r, Hi', Nat.sub_diag in Hb by lia.
  simplify_eq/=. by exists x'.
Qed.

Lemma shuffle_from_reaches i x t rest :
  length x = S i → t ≡ₚ x →
  ∃ choices : list nat, ∀ g,
    (∀ k c, choices !! k = Some c → tape g (cursor g + k) = c) →
    (shuffle_from i (x ++ rest) g).1 = t ++ rest.
Proof.
  revert x t rest. induction i as [|i IH]; intros x t rest Hlen Hp.
  { exists []. intros g _. simpl.
    destruct x as [|a [|??]]; simplify_eq/=.
    by apply Permutation_singleton_r in Hp as ->. }
  destruct (list_snoc_cases t) as [->|(t' & b & ->)].
  { apply Permutation_nil in Hp. by subst. }
  assert (b ∈ x) as Hb by (rewrite <-Hp, elem_of_app, list_elem_of_singleton; by right).
  apply list_elem_of_lookup in Hb as [j Hj].
  pose proof (lookup_lt_Some _ _ _ Hj) as Hjlt.
  destruct (swap_last x (S i) j b Hlen Hj) as (x' & Hx' & Hlen').
  assert (t' ≡ₚ x') as Hp'.
  { apply (Permutation_app_inv_r [b]).
    by rewrite Hp, <-Hx', swap_Permutation. }
  destruct (IH x' t' (b :: rest) Hlen' Hp') as [choices Hchoices].
  exists (j :: choices). intros g Hg.
  cbn [shuffle_from _randbelow].
  pose proof (Hg 0 j eq_refl) as H0. rewrite Nat.add_0_r in H0. rewrite H0.
  rewrite Nat.mod_small by lia.
  rewrite swap_app_l, Hx', <-!app_assoc by lia. simpl.
  apply Hchoices. intros k c Hk. simpl.
  rewrite <-(Hg (S k) c) by done. f_equal. lia.
Qed.

(** [shuffle] can produce every arrangement of the list. *)
Lemma shuffle_reaches x t : t ≡ₚ x → ∃ g, (shuffle x g).1 = t.
Proof.
  intros Hp. destruct x as [|a x].
  { apply Permutation_nil_r in Hp as ->. by exists (mkRng (λ _, 0) 0). }
  destruct (shuffle_from_reaches (length x) (a :: x) t [] eq_refl Hp)
    as [choices Hchoices].
  exists (mkRng (λ k, default 0 (choices !! k)) 0).
  unfold shuffle. simpl. rewrite Nat.sub_0_r.
  rewrite <-(app_nil_r t), <-(app_nil_r (a :: x)).
  apply Hchoices. intros k c Hk. simpl. by rewrite Hk.
Qed.
End builtins_facts.

(** ** The pickers *)

Section Tombola_facts.
Context {Item : Type} (le : relation Item) `{!RelDecision le}.
Implicit Types (items l S : list Item) (g : Rng) (x : Item).

(** *** [pick], class by class *)

Lemma BingoCage_pick_nil g :
  BingoCage_pick (mkBingoCage (@nil Item)) g
  = (Raises LookupError, mkBingoCage [], g).
Proof. reflexivity. Qed.

Lemma BingoCage_pick_snoc l x g :
  BingoCage_pick (mkBingoCage (l ++ [x])) g = (Returns x, mkBingoCage l, g).
Proof. unfold BingoCage_pick. simpl. by rewrite list_pop_snoc. Qed.

Lemma randrange_0 g : randrange 0 g = (Raises ValueError, g).
Proof. reflexivity. Qed.

Lemma randrange_pos n g :
  0 < n → ∃ r, r < n ∧ randrange n g = (Returns r, (_randbelow n g).2).
Proof.
  intros Hn. unfold randrange. rewrite decide_True by done.
  exists (_randbelow n g).1. split; [by apply _randbelow_lt|].
  by destruct (_randbelow n g).
Qed.

Lemma LotteryBlower_pick_nil g :
  LotteryBlower_pick (mkLotteryBlower (@nil Item)) g
  = (Raises LookupError, mkLotteryBlower [], g).
Proof. reflexivity. Qed.

Lemma LotteryBlower_pick_cons l g :
  l ≠ [] →
  ∃ i x, l !! i = Some x ∧
    LotteryBlower_pick (mkLotteryBlower l) g
    = (Returns x, mkLotteryBlower (delete i l), (_randbelow (length l) g).2).
Proof.
  intros Hl. assert (0 < length l) as Hn by (destruct l; simpl; [done|lia]).
  destruct (randrange_pos _ g Hn) as (i & Hi & Hr).
  destruct (lookup_lt_is_Some_2 l i Hi) as [x Hx].
  exists i, x. split; [done|].
  unfold LotteryBlower_pick. simpl. rewrite Hr.
  by rewrite (list_pop_at_Some _ _ _ Hx).
Qed.

Lemma TomboList_pick_nil g :
  TomboList_pick (@nil Item) g = (Raises LookupError, [], g).
Proof. reflexivity. Qed.

Lemma TomboList_pick_cons l g :
  l ≠ [] →
  ∃ i x, l !! i = Some x ∧
    TomboList_pick l g
    = (Returns x, delete i l, (_randbelow (length l) g).2).
Proof.
  intros Hl. assert (0 < length l) as Hn by (destruct l; simpl; [done|lia]).
  destruct (randrange_pos _ g Hn) as (i & Hi & Hr).
  destruct (lookup_lt_is_Some_2 l i Hi) as [x Hx].
  exists i, x. split; [done|].
  unfold TomboList_pick. destruct l as [|y l]; [done|].
  cbn [bool_of_seq]. rewrite Hr.
  by rewrite (list_pop_at_Some _ _ _ Hx).
Qed.

(** *** Pickers that lose nothing *)

Lemma BingoCage_pick_lossless : lossless _items (@BingoCage_pick Item).
Proof.
  intros [l] g. destruct (list_snoc_cases l) as [->|(l' & x & ->)].
  - by rewrite BingoCage_pick_nil.
  - rewrite BingoCage_pick_snoc. simpl.
    by rewrite Permutation_app_comm.
Qed.

Lemma LotteryBlower_pick_lossless :
  lossless _balls (@LotteryBlower_pick Item).
Proof.
  intros [l] g. destruct (decide (l = [])) as [->|Hl].
  - by rewrite LotteryBlower_pick_nil.
  - destruct (LotteryBlower_pick_cons l g Hl) as (i & x & Hx & ->).
    simpl. by apply delete_Permutation.
Qed.

Lemma TomboList_pick_lossless : lossless id (@TomboList_pick Item).
Proof.
  intros l g. destruct (decide (l = [])) as [->|Hl].
  - by rewrite TomboList_pick_nil.
  - destruct (TomboList_pick_cons l g Hl) as (i & x & Hx & ->).
    simpl. by apply delete_Permutation.
Qed.

(** Draining a lossless picker terminates within [length + 1] picks, and
    hands out exactly the stored items. *)
Lemma pick_until_LookupError_lossless {T : Type} (contents : T → list Item)
    (pick : T → Rng → call T Item) :
  lossless contents pick →
  ∀ fuel acc self g,
    length (contents self) < fuel →
    ∃ out self' g',
      pick_until_LookupError pick fuel acc self g
      = Some (Returns out, self', g')
      ∧ out ≡ₚ acc ++ contents self
      ∧ contents self' = [].
Proof.
  intros Hpick fuel. induction fuel as [|fuel IH]; intros acc self g Hlen.
  { lia. }
  simpl. specialize (Hpick self g).
  destruct (pick self g) as [[[x|e] self'] g'].
  - assert (length (contents self') < fuel) as Hlen'.
    { apply Permutation_length in Hpick. simpl in Hpick. lia. }
    destruct (IH (acc ++ [x]) self' g' Hlen') as (out & s & g'' & -> & Hp & He).
    exists out, s, g''. split_and!; [done| |done].
    by rewrite Hp, Hpick, <-app_assoc.
  - destruct Hpick as (-> & Hnil & ->). simpl.
    exists acc, self, g'. by rewrite Hnil, app_nil_r.
Qed.

(** [BingoCage] pops from the end: the drain is the reversed storage, and
    uses no randomness. *)
Lemma pick_until_LookupError_BingoCage fuel acc l g :
  length l < fuel →
  pick_until_LookupError BingoCage_pick fuel acc (mkBingoCage l) g
  = Some (Returns (acc ++ reverse l), mkBingoCage [], g).
Proof.
  revert acc l. induction fuel as [|fuel IH]; intros acc l Hlen; [lia|].
  destruct (list_snoc_cases l) as [->|(l' & x & ->)].
  - simpl. by rewrite app_nil_r.
  - cbn [pick_until_LookupError]. rewrite BingoCage_pick_snoc.
    rewrite length_app in Hlen. simpl in Hlen.
    rewrite IH by lia. by rewrite reverse_snoc, <-app_assoc.
Qed.

(** *** Draining *)

Lemma drains_to_lossless {T : Type} (contents : T → list Item)
    (pick : T → Rng → call T Item) fuel self g :
  lossless contents pick →
  length (contents self) < fuel →
  drains_to contents pick fuel self g (contents self).
Proof.
  intros Hpick Hlen.
  destruct (pick_until_LookupError_lossless contents pick Hpick fuel [] self g
              Hlen) as (out & self' & g' & Hrun & Hp & He).
  by exists out, self', g'.
Qed.

Lemma drains_to_Permutation {T : Type} (contents : T → list Item)
    (pick : T → Rng → call T Item) fuel self g S S' :
  S ≡ₚ S' → drains_to contents pick fuel self g S →
  drains_to contents pick fuel self g S'.
Proof.
  intros HS (out & self' & g' & Hrun & Hp & He).
  exists out, self', g'. by rewrite <-HS.
Qed.

Lemma BingoCage_init_items S g : _items (BingoCage_init S g).1.2 ≡ₚ S.
Proof.
  unfold BingoCage_init, BingoCage_load, list_extend. simpl.
  pose proof (shuffle_Permutation S g) as Hp.
  by destruct (shuffle S g).
Qed.

(** C1: for BingoCage, LotteryBlower and TomboList, and every list [S] of
    items loaded into a fresh instance (by the constructor, and also by
    [load] on an empty instance for the two classes that have it), picking
    until [LookupError] ends, and hands out exactly the items of [S] as a
    multiset: a permutation of [S], with the storage left empty. *)
Theorem drain_returns_loaded_multiset S g g1 fuel :
  length S < fuel →
  drains_to _items BingoCage_pick fuel (BingoCage_init S g).1.2 g1 S
  ∧ drains_to _balls LotteryBlower_pick fuel (LotteryBlower_init S) g1 S
  ∧ drains_to id TomboList_pick fuel (TomboList_init S) g1 S
  ∧ drains_to _balls LotteryBlower_pick fuel
      (LotteryBlower_load (LotteryBlower_init []) S g).1.2 g1 S.
Proof.
  intros Hlen. split_and!.
  - apply (drains_to_Permutation _ _ _ _ _ _ _ (BingoCage_init_items S g)).
    apply drains_to_lossless; [apply BingoCage_pick_lossless|].
    by rewrite (Permutation_length (BingoCage_init_items S g)).
  - by apply (drains_to_lossless _balls); [apply LotteryBlower_pick_lossless|].
  - by apply (drains_to_lossless id); [apply TomboList_pick_lossless|].
  - by apply (drains_to_lossless _balls); [apply LotteryBlower_pick_lossless|].
Qed.

(** *** Failing picks *)

Lemma lossless_raises_iff_empty {T : Type} (contents : T → list Item)
    (pick : T → Rng → call T Item) self g :
  lossless contents pick →
  raises (pick self g) LookupError ↔ contents self = [].
Proof.
  intros Hpick. specialize (Hpick self g). unfold raises.
  destruct (pick self g) as [[[x|e] self'] g']; simpl.
  - split; [done|]. intros Hnil. rewrite Hnil in Hpick.
    by apply Permutation_nil_cons in Hpick.
  - destruct Hpick as (-> & Hnil & _). by split.
Qed.

(** C2: on empty storage, which is also the storage of a freshly built and
    unloaded instance, [pick] raises [LookupError], for the three classes.
    On every state [pick] either returns one item, taken out of the storage
    with the rest kept, or raises [LookupError] and leaves the instance as
    it was: there is no other failure and no partial removal. *)
Theorem pick_empty_raises_LookupError g :
  (BingoCage_init (@nil Item) g = (Returns (), mkBingoCage [], g)
   ∧ BingoCage_pick (mkBingoCage (@nil Item)) g
     = (Raises LookupError, mkBingoCage [], g)
   ∧ LotteryBlower_pick (LotteryBlower_init (@nil Item)) g
     = (Raises LookupError, LotteryBlower_init [], g)
   ∧ TomboList_pick (TomboList_init (@nil Item)) g
     = (Raises LookupError, TomboList_init [], g))
  ∧ lossless _items (@BingoCage_pick Item)
  ∧ lossless _balls (@LotteryBlower_pick Item)
  ∧ lossless id (@TomboList_pick Item).
Proof.
  split; [by split_and!|].
  split_and!;
    [apply BingoCage_pick_lossless | apply LotteryBlower_pick_lossless
    | apply TomboList_pick_lossless].
Qed.

(** *** [TomboList.load] *)

(** C3 (the code departs from it): [TomboList] binds [pick], [loaded] and
    [inspect], and finds [extend] in [list], but no attribute [load]: on
    every instance and every sequence of items, [t.load(items)] raises
    [AttributeError] and appends nothing. *)
Theorem TomboList_load_unbound (self : TomboList Item) items g :
  TomboList_hasattr "pick" = true
  ∧ TomboList_hasattr "loaded" = true
  ∧ TomboList_hasattr "inspect" = true
  ∧ TomboList_hasattr "extend" = true
  ∧ TomboList_hasattr "load" = false
  ∧ TomboList_load self items g = (Raises AttributeError, self, g).
Proof. by split_and!. Qed.

(** *** Sorting *)

Lemma sorted_Permutation items : sorted le items ≡ₚ items.
Proof. apply merge_sort_Permutation. Qed.

Lemma sorted_nil : sorted le [] = [].
Proof. reflexivity. Qed.

Section total_order.
Context `{!PartialOrder le, !Total le}.

Lemma sorted_Sorted items : Sorted le (sorted le items).
Proof. by apply Sorted_merge_sort. Qed.

(** Under a total order the sorted form depends on the multiset only. *)
Lemma sorted_Permutation_eq l1 l2 : l1 ≡ₚ l2 → sorted le l1 = sorted le l2.
Proof.
  intros Hp. apply (Sorted_unique le); [apply sorted_Sorted..|].
  by rewrite !sorted_Permutation.
Qed.
End total_order.

(** *** The inherited [inspect] and [loaded] on a [BingoCage] *)

(** With enough fuel for the drain, [inspect] empties the cage from the end,
    loads the drained items back (shuffling them) and returns them sorted. *)
Lemma BingoCage_inspect_run fuel l g :
  length l < fuel →
  BingoCage_inspect le fuel (mkBingoCage l) g
  = Some (Returns (sorted le (reverse l)),
          mkBingoCage (shuffle (reverse l) g).1, (shuffle (reverse l) g).2).
Proof.
  intros Hlen. unfold BingoCage_inspect, Tombola_inspect. simpl.
  rewrite pick_until_LookupError_BingoCage by done. simpl.
  unfold BingoCage_load, list_extend. simpl.
  by destruct (shuffle (reverse l) g).
Qed.

Lemma BingoCage_loaded_run fuel l g :
  length l < fuel →
  BingoCage_loaded le fuel (mkBingoCage l) g
  = Some (Returns (bool_of_seq l),
          mkBingoCage (shuffle (reverse l) g).1, (shuffle (reverse l) g).2).
Proof.
  intros Hlen. unfold BingoCage_loaded, Tombola_loaded.
  fold (BingoCage_inspect le fuel (mkBingoCage l) g).
  rewrite BingoCage_inspect_run by done.
  rewrite (bool_of_seq_Permutation (sorted le (reverse l)) l); [done|].
  by rewrite sorted_Permutation, reverse_Permutation.
Qed.

Lemma shuffle_reverse_Permutation l g : (shuffle (reverse l) g).1 ≡ₚ l.
Proof. by rewrite shuffle_Permutation, reverse_Permutation. Qed.

(** *** [inspect] *)

(** C4: on every instance of the three classes, [inspect] returns the
    sorted form of the current contents (a sorted permutation of them, the
    only one), leaves the contents as they were (as a multiset for
    [BingoCage], whose inherited [inspect] reloads them; the very same list
    for the other two), and a second [inspect] returns the same tuple. *)
Theorem inspect_sorted_idempotent_nondestructive
    `{!PartialOrder le, !Total le} l g fuel :
  length l < fuel →
  (Sorted le (sorted le l) ∧ sorted le l ≡ₚ l)
  ∧ (∃ cage' g',
       BingoCage_inspect le fuel (mkBingoCage l) g
       = Some (Returns (sorted le l), cage', g')
       ∧ _items cage' ≡ₚ l
       ∧ ∃ cage'' g'',
           BingoCage_inspect le fuel cage' g'
           = Some (Returns (sorted le l), cage'', g'')
           ∧ _items cage'' ≡ₚ l)
  ∧ (LotteryBlower_inspect le (mkLotteryBlower l) g
     = (Returns (sorted le l), mkLotteryBlower l, g))
  ∧ (TomboList_inspect le l g = (Returns (sorted le l), l, g)).
Proof.
  intros Hlen. split_and!; try done.
  - apply sorted_Sorted.
  - apply sorted_Permutation.
  - pose proof (shuffle_reverse_Permutation l g) as Hp.
    eexists _, _. split_and!.
    + rewrite BingoCage_inspect_run by done.
      by rewrite (sorted_Permutation_eq (reverse l) l)
        by apply reverse_Permutation.
    + done.
    + eexists _, _. split.
      * rewrite BingoCage_inspect_run
          by (by rewrite (Permutation_length Hp)).
        rewrite (sorted_Permutation_eq (reverse _) l); [done|].
        by rewrite reverse_Permutation.
      * simpl. by rewrite shuffle_reverse_Permutation.
Qed.

(** *** [loaded] *)

(** C5: on every instance of the three classes, [loaded] returns [False]
    exactly when the [pick] that follows it raises [LookupError], which is
    exactly when no item is stored. *)
Theorem loaded_false_iff_pick_raises l g fuel :
  length l < fuel →
  (∃ b cage' g',
     BingoCage_loaded le fuel (mkBingoCage l) g = Some (Returns b, cage', g')
     ∧ (b = false ↔ raises (BingoCage_pick cage' g') LookupError)
     ∧ (b = false ↔ l = []))
  ∧ (∃ b,
       LotteryBlower_loaded (mkLotteryBlower l) g
       = (Returns b, mkLotteryBlower l, g)
       ∧ (b = false ↔ raises (LotteryBlower_pick (mkLotteryBlower l) g)
                        LookupError)
       ∧ (b = false ↔ l = []))
  ∧ (∃ b,
       TomboList_loaded l g = (Returns b, l, g)
       ∧ (b = false ↔ raises (TomboList_pick l g) LookupError)
       ∧ (b = false ↔ l = [])).
Proof.
  intros Hlen. split_and!.
  - eexists _, _, _. split; [by apply BingoCage_loaded_run|].
    split; [|apply bool_of_seq_false].
    rewrite (lossless_raises_iff_empty _items)
      by apply BingoCage_pick_lossless.
    simpl. rewrite bool_of_seq_false.
    pose proof (shuffle_reverse_Permutation l g) as Hp.
    split; [intros ->|intros Hnil; rewrite Hnil in Hp].
    + done.
    + by apply Permutation_nil.
  - eexists. split; [done|]. split; [|apply bool_of_seq_false].
    rewrite (lossless_raises_iff_empty _balls)
      by apply LotteryBlower_pick_lossless.
    apply bool_of_seq_false.
  - eexists. split; [done|]. split; [|apply bool_of_seq_false].
    rewrite (lossless_raises_iff_empty id)
      by apply TomboList_pick_lossless.
    apply bool_of_seq_false.
Qed.

(** *** [BingoCage.load] and [BingoCage.pick] *)

(** C6: [BingoCage.load] appends the new items to the stored sequence and
    shuffles the whole of it with the [SystemRandom] source: the result is a
    rearrangement of old and new items together, and every such
    rearrangement is the result for some run of the source.
    [BingoCage.pick] removes and returns the last element, and raises
    [LookupError] on an empty sequence. *)
Theorem BingoCage_load_shuffles_pick_pops l items x g :
  BingoCage_load (mkBingoCage l) items g
  = (Returns (), mkBingoCage (shuffle (l ++ items) g).1,
     (shuffle (l ++ items) g).2)
  ∧ _items (BingoCage_load (mkBingoCage l) items g).1.2 ≡ₚ l ++ items
  ∧ (∀ t, t ≡ₚ l ++ items →
       ∃ g', _items (BingoCage_load (mkBingoCage l) items g').1.2 = t)
  ∧ BingoCage_pick (mkBingoCage (l ++ [x])) g = (Returns x, mkBingoCage l, g)
  ∧ BingoCage_pick (mkBingoCage (@nil Item)) g
    = (Raises LookupError, mkBingoCage [], g).
Proof.
  assert (∀ g0, BingoCage_load (mkBingoCage l) items g0
    = (Returns (), mkBingoCage (shuffle (l ++ items) g0).1,
       (shuffle (l ++ items) g0).2)) as Hload.
  { intros g0. unfold BingoCage_load, list_extend. simpl.
    by destruct (shuffle (l ++ items) g0). }
  split_and!.
  - apply Hload.
  - rewrite Hload. apply shuffle_Permutation.
  - intros t Ht. destruct (shuffle_reaches (l ++ items) t Ht) as [g' Hg'].
    exists g'. by rewrite Hload.
  - apply BingoCage_pick_snoc.
  - apply BingoCage_pick_nil.
Qed.

(** *** The loop of the inherited [inspect] *)

(** The loop ends only at a [pick] that raises: it stops quietly when the
    exception is a [LookupError], and lets any other exception through. *)
Lemma pick_until_LookupError_ends {T : Type} (pick : T → Rng → call T Item)
    fuel acc self g r self' g' :
  pick_until_LookupError pick fuel acc self g = Some (r, self', g') →
  ∃ self0 g0 e,
    pick self0 g0 = (Raises e, self', g')
    ∧ match r with
      | Returns _ => isinstance_LookupError e = true
      | Raises e' => e' = e ∧ isinstance_LookupError e = false
      end.
Proof.
  revert acc self g. induction fuel as [|fuel IH]; intros acc self g; [done|].
  simpl. destruct (pick self g) as [[[x|e] s1] g1] eqn:Hpick.
  - apply IH.
  - destruct (isinstance_LookupError e) eqn:He; intros [= <- <- <-];
      by exists self, g, e.
Qed.

(** The loop, run by run: after the picks that return [xs], a [pick] that
    raises ends it, quietly for a [LookupError] and with the exception
    otherwise; and it does not end before. *)
Lemma pick_until_LookupError_run {T : Type} (pick : T → Rng → call T Item)
    self g xs self1 g1 e self2 g2 fuel acc :
  picks_run pick self g xs self1 g1 →
  pick self1 g1 = (Raises e, self2, g2) →
  length xs < fuel →
  pick_until_LookupError pick fuel acc self g
  = Some (if isinstance_LookupError e then Returns (acc ++ xs) else Raises e,
          self2, g2).
Proof.
  intros Hrun Hpick. revert fuel acc.
  induction Hrun as [self g|self g x s1 g1 xs s' g' Hx Hrun IH];
    intros [|fuel] acc Hlen; simpl in Hlen; try lia; simpl.
  - rewrite Hpick, app_nil_r. by destruct (isinstance_LookupError e).
  - rewrite Hx, (IH Hpick fuel (acc ++ [x])) by lia.
    by rewrite <-app_assoc.
Qed.

Lemma pick_until_LookupError_short {T : Type} (pick : T → Rng → call T Item)
    self g xs self1 g1 fuel acc :
  picks_run pick self g xs self1 g1 →
  fuel ≤ length xs →
  pick_until_LookupError pick fuel acc self g = None.
Proof.
  intros Hrun. revert fuel acc.
  induction Hrun as [self g|self g x s1 g1 xs s' g' Hx Hrun IH];
    intros [|fuel] acc Hlen; simpl in Hlen; try lia; try done.
  simpl. rewrite Hx. apply IH. lia.
Qed.

Lemma pick_until_LookupError_Some {T : Type} (pick : T → Rng → call T Item)
    fuel acc self g r self2 g2 :
  pick_until_LookupError pick fuel acc self g = Some (r, self2, g2) →
  ∃ xs self1 g1 e,
    picks_run pick self g xs self1 g1
    ∧ pick self1 g1 = (Raises e, self2, g2)
    ∧ length xs < fuel
    ∧ r = if isinstance_LookupError e then Returns (acc ++ xs) else Raises e.
Proof.
  revert acc self g. induction fuel as [|fuel IH]; intros acc self g; [done|].
  simpl. destruct (pick self g) as [[[x|e] s1] g1] eqn:Hpick.
  - intros (xs & s' & g' & e & Hrun & He & Hlen & ->)%IH.
    exists (x :: xs), s', g', e. split_and!; try done.
    + by eapply picks_run_cons.
    + simpl. lia.
    + by rewrite <-app_assoc.
  - intros Hr. exists [], self, g, e. rewrite app_nil_r.
    split_and!; [constructor| |simpl; lia|].
    + destruct (isinstance_LookupError e); by simplify_eq.
    + destruct (isinstance_LookupError e); by simplify_eq.
Qed.

(** C7: [inspect] on empty storage returns the empty tuple and does not
    fail, for the three classes.  The loop of the inherited [inspect], for
    any implementation of [pick] and after any number of items picked,
    stops without failing at a [LookupError] (or one of its subclasses):
    [inspect] then loads the items back and returns them sorted.  An
    exception of any other class, raised by [pick] at its first call or
    after any number of items, comes out of [inspect] as it is, and so does
    an exception of [load]; [inspect] raises nothing else, and returns
    only once a [pick] has raised. *)
Theorem inspect_empty_and_exceptions g fuel :
  (BingoCage_inspect le (S fuel) (mkBingoCage []) g
   = Some (Returns [], mkBingoCage [], g)
   ∧ LotteryBlower_inspect le (mkLotteryBlower []) g
     = (Returns [], mkLotteryBlower [], g)
   ∧ TomboList_inspect le [] g = (Returns [], [], g))
  ∧ (∀ (T : Type) (HT : Tombola T) (self self' : T) g' e,
       pick self g = (Raises e, self', g') →
       if isinstance_LookupError e
       then ∃ r, Tombola_inspect le (S fuel) self g = Some r
                 ∧ r.1.1 = match (load self' [] g').1.1 with
                           | Returns _ => Returns []
                           | Raises e' => Raises e'
                           end
       else Tombola_inspect le (S fuel) self g = Some (Raises e, self', g'))
  ∧ (∀ (T : Type) (HT : Tombola T) (self self' : T) g' e,
       Tombola_inspect le fuel self g = Some (Raises e, self', g') →
       (∃ self0 g0, pick self0 g0 = (Raises e, self', g')
                    ∧ isinstance_LookupError e = false)
       ∨ (∃ self0 items g0, load self0 items g0 = (Raises e, self', g')))
  ∧ (∀ (T : Type) (HT : Tombola T) (self self1 self2 : T) xs g1 g2 e,
       picks_run pick self g xs self1 g1 →
       pick self1 g1 = (Raises e, self2, g2) →
       (length xs < fuel →
        Tombola_inspect le fuel self g
        = if isinstance_LookupError e
          then match load self2 xs g2 with
               | (Returns _, self3, g3) =>
                   Some (Returns (sorted le xs), self3, g3)
               | (Raises e', self3, g3) => Some (Raises e', self3, g3)
               end
          else Some (Raises e, self2, g2))
       ∧ (fuel ≤ length xs → Tombola_inspect le fuel self g = None))
  ∧ (∀ (T : Type) (HT : Tombola T) (self : T) r,
       Tombola_inspect le fuel self g = Some r →
       ∃ xs self1 g1 e self2 g2,
         picks_run pick self g xs self1 g1
         ∧ pick self1 g1 = (Raises e, self2, g2)
         ∧ length xs < fuel).
Proof.
  split_and!.
  - reflexivity.
  - reflexivity.
  - reflexivity.
  - intros T HT self self' g' e Hpick.
    unfold Tombola_inspect. simpl. rewrite Hpick.
    destruct (isinstance_LookupError e); [|done].
    destruct (load self' [] g') as [[[u|e'] s2] g2]; by eexists.
  - intros T HT self self' g' e. unfold Tombola_inspect.
    destruct (pick_until_LookupError pick fuel [] self g)
      as [[[[items|e0] s1] g1]|] eqn:Hloop; [| |done].
    + destruct (load s1 items g1) as [[[u|e'] s2] g2] eqn:Hload; [done|].
      intros [= <- <- <-]. right. by exists s1, items, g1.
    + intros [= <- <- <-]. left.
      destruct (pick_until_LookupError_ends _ _ _ _ _ _ _ _ Hloop)
        as (s0 & g0 & e1 & Hpick & -> & He).
      by exists s0, g0.
  - intros T HT self self1 self2 xs g1 g2 e Hrun Hpick.
    unfold Tombola_inspect. split; intros Hlen.
    + rewrite (pick_until_LookupError_run _ _ _ _ _ _ _ _ _ _ [] Hrun Hpick
                 Hlen).
      destruct (isinstance_LookupError e); [|done]. simpl.
      by destruct (load self2 xs g2) as [[[u|e'] s3] g3].
    + by rewrite (pick_until_LookupError_short _ _ _ _ _ _ _ [] Hrun Hlen).
  - intros T HT self r. unfold Tombola_inspect.
    destruct (pick_until_LookupError pick fuel [] self g)
      as [[[r0 s2] g2]|] eqn:Hloop; [|done].
    intros _.
    destruct (pick_until_LookupError_Some _ _ _ _ _ _ _ _ Hloop)
      as (xs & s1 & g1 & e & Hrun & Hpick & Hlen & _).
    by exists xs, s1, g1, e, s2, g2.
Qed.

(** *** Loading nothing *)

(** C8 (the code departs from it for [TomboList]): [load] with no items
    returns on a [BingoCage] and on a [LotteryBlower], and the [inspect]
    that follows returns what an [inspect] before the [load] returns; on a
    [TomboList] the same call raises [AttributeError]. *)
Theorem load_nothing_keeps_inspect `{!PartialOrder le, !Total le} l g fuel :
  length l < fuel →
  (∃ cage' g', BingoCage_load (mkBingoCage l) [] g = (Returns (), cage', g')
     ∧ (∀ g1, ∃ cage1 g1',
          BingoCage_inspect le fuel (mkBingoCage l) g1
          = Some (Returns (sorted le l), cage1, g1'))
     ∧ (∀ g1, ∃ cage1 g1',
          BingoCage_inspect le fuel cage' g1
          = Some (Returns (sorted le l), cage1, g1')))
  ∧ (LotteryBlower_load (mkLotteryBlower l) [] g
     = (Returns (), mkLotteryBlower l, g))
  ∧ (TomboList_load l [] g = (Raises AttributeError, l, g)).
Proof.
  intros Hlen. split_and!; [| |done]; last first.
  { unfold LotteryBlower_load, list_extend. simpl. by rewrite app_nil_r. }
  pose proof (shuffle_Permutation l g) as Hp.
  exists (mkBingoCage (shuffle l g).1), (shuffle l g).2. split_and!.
  - unfold BingoCage_load, list_extend. simpl. rewrite app_nil_r.
    by destruct (shuffle l g).
  - intros g1. eexists _, _. rewrite BingoCage_inspect_run by done.
    by rewrite (sorted_Permutation_eq (reverse l) l)
      by apply reverse_Permutation.
  - intros g1. eexists _, _.
    rewrite BingoCage_inspect_run by (by rewrite (Permutation_length Hp)).
    rewrite (sorted_Permutation_eq (reverse _) l); [done|].
    by rewrite reverse_Permutation.
Qed.

(** *** Calling a [BingoCage] *)

(** C9: calling a [BingoCage] that holds items removes the last one, as
    [pick] does, and returns [None], whatever the item was; on an empty
    cage the [LookupError] of [pick] comes out. *)
Theorem BingoCage_call_discards_pick l x g :
  BingoCage_call (mkBingoCage (l ++ [x])) g = (Returns None, mkBingoCage l, g)
  ∧ BingoCage_pick (mkBingoCage (l ++ [x])) g = (Returns x, mkBingoCage l, g)
  ∧ BingoCage_call (mkBingoCage (@nil Item)) g
    = (Raises LookupError, mkBingoCage [], g)
  ∧ (∀ (self self' : BingoCage Item) g0 g' r,
       BingoCage_call self g0 = (Returns r, self', g') → r = None).
Proof.
  split_and!.
  - unfold BingoCage_call. by rewrite BingoCage_pick_snoc.
  - apply BingoCage_pick_snoc.
  - done.
  - intros self self' g0 g' r. unfold BingoCage_call.
    destruct (BingoCage_pick self g0) as [[[y|e] s1] g1]; congruence.
Qed.

(** *** What the inherited reads do to a [BingoCage] *)

(** C10: the inherited [inspect] and [loaded] drain the cage with [pick]
    and put the items back with [load], which shuffles: after the call the
    cage holds the same multiset of items, and its sequence can be any
    arrangement of them, so for two distinct items an arrangement other
    than the one before the call. *)
Theorem inherited_reads_keep_multiset_not_order l g fuel :
  length l < fuel →
  (∃ t cage' g',
     BingoCage_inspect le fuel (mkBingoCage l) g = Some (Returns t, cage', g')
     ∧ BingoCage_load (mkBingoCage []) (reverse l) g = (Returns (), cage', g')
     ∧ _items cage' ≡ₚ l)
  ∧ (∃ b cage' g',
       BingoCage_loaded le fuel (mkBingoCage l) g
       = Some (Returns b, cage', g')
       ∧ BingoCage_load (mkBingoCage []) (reverse l) g
         = (Returns (), cage', g')
       ∧ _items cage' ≡ₚ l)
  ∧ (∀ l', l' ≡ₚ l →
       ∃ g0 t b g',
         BingoCage_inspect le fuel (mkBingoCage l) g0
         = Some (Returns t, mkBingoCage l', g')
         ∧ BingoCage_loaded le fuel (mkBingoCage l) g0
           = Some (Returns b, mkBingoCage l', g'))
  ∧ (∀ x y l0, l = x :: y :: l0 → x ≠ y →
       ∃ g0 t cage' g',
         BingoCage_inspect le fuel (mkBingoCage l) g0
         = Some (Returns t, cage', g')
         ∧ _items cage' ≠ l).
Proof.
  intros Hlen.
  assert (∀ g0, BingoCage_load (mkBingoCage []) (reverse l) g0
    = (Returns (), mkBingoCage (shuffle (reverse l) g0).1,
       (shuffle (reverse l) g0).2)) as Hload.
  { intros g0. unfold BingoCage_load, list_extend. simpl.
    by destruct (shuffle (reverse l) g0). }
  assert (∀ l', l' ≡ₚ l → ∃ g0, (shuffle (reverse l) g0).1 = l') as Hreach.
  { intros l' Hl'. apply shuffle_reaches.
    by rewrite Hl', reverse_Permutation. }
  split_and!.
  - eexists _, _, _. split_and!; [by apply BingoCage_inspect_run|apply Hload|].
    apply shuffle_reverse_Permutation.
  - eexists _, _, _. split_and!; [by apply BingoCage_loaded_run|apply Hload|].
    apply shuffle_reverse_Permutation.
  - intros l' Hl'. destruct (Hreach l' Hl') as [g0 Hg0].
    exists g0. eexists _, _, _.
    rewrite BingoCage_inspect_run, BingoCage_loaded_run by done.
    by rewrite Hg0.
  - intros x y l0 -> Hxy.
    destruct (Hreach (y :: x :: l0)) as [g0 Hg0]; [apply perm_swap|].
    exists g0. eexists _, _, _.
    rewrite BingoCage_inspect_run by done. split; [done|].
    simpl. rewrite Hg0. congruence.
Qed.
End Tombola_facts.

(** * The notebook's scenario, run *)

(** [BingoCage([1, 1, 2, 3])], then [inspect()]: the sorted tuple, and a cage
    that holds the same items in another arrangement. *)
Example BingoCage_scenario_inspect :
  BingoCage_init sample_items sample_rng
  = (Returns (), mkBingoCage [1; 2; 1; 3]%Z, mkRng (tape sample_rng) 3)
  ∧ BingoCage_inspect Z.le 5 (mkBingoCage [1; 2; 1; 3]%Z) sample_rng
    = Some (Returns [1; 1; 2; 3]%Z, mkBingoCage [3; 2; 1; 1]%Z,
            mkRng (tape sample_rng) 3).
Proof. split; reflexivity. Qed.

(** With fuel for four picks only, the drain of four items has not met its
    [LookupError] yet. *)
Example BingoCage_scenario_short_fuel :
  BingoCage_inspect Z.le 4 (mkBingoCage [1; 2; 1; 3]%Z) sample_rng = None.
Proof. reflexivity. Qed.

(** Draining the three classes: two 1's, one 2 and one 3 each time. *)
Example scenario_drains :
  (pick_until_LookupError BingoCage_pick 5 [] (mkBingoCage [1; 2; 1; 3]%Z)
     sample_rng
   = Some (Returns [3; 1; 2; 1]%Z, mkBingoCage [], sample_rng))
  ∧ (pick_until_LookupError LotteryBlower_pick 5 []
       (LotteryBlower_init sample_items) sample_rng
     = Some (Returns [3; 1; 2; 1]%Z, mkLotteryBlower [],
             mkRng (tape sample_rng) 4))
  ∧ (pick_until_LookupError TomboList_pick 5 [] (TomboList_init sample_items)
       sample_rng
     = Some (Returns [3; 1; 2; 1]%Z, [], mkRng (tape sample_rng) 4)).
Proof. split; [|split]; reflexivity. Qed.

(** [TomboList([1, 1, 2, 3]).load([4])] *)
Example TomboList_scenario_load :
  TomboList_load (TomboList_init sample_items) [4%Z] sample_rng
  = (Raises AttributeError, sample_items, sample_rng).
Proof. reflexivity. Qed.

(** * The properties at the scenario's items *)

Lemma drain_returns_loaded_multiset_witness :
  length sample_items < 5
  ∧ drains_to _items BingoCage_pick 5
      (BingoCage_init sample_items sample_rng).1.2 sample_rng sample_items
  ∧ drains_to _balls LotteryBlower_pick 5 (LotteryBlower_init sample_items)
      sample_rng sample_items
  ∧ drains_to id TomboList_pick 5 (TomboList_init sample_items) sample_rng
      sample_items
  ∧ drains_to _balls LotteryBlower_pick 5
      (LotteryBlower_load (LotteryBlower_init []) sample_items sample_rng).1.2
      sample_rng sample_items.
Proof.
  split; [simpl; lia|].
  apply (drain_returns_loaded_multiset sample_items sample_rng sample_rng 5).
  simpl; lia.
Defined.

Lemma inspect_sorted_idempotent_nondestructive_witness :
  length sample_items < 5
  ∧ (Sorted Z.le (sorted Z.le sample_items)
     ∧ sorted Z.le sample_items ≡ₚ sample_items)
  ∧ (∃ cage' g',
       BingoCage_inspect Z.le 5 (mkBingoCage sample_items) sample_rng
       = Some (Returns (sorted Z.le sample_items), cage', g')
       ∧ _items cage' ≡ₚ sample_items
       ∧ ∃ cage'' g'',
           BingoCage_inspect Z.le 5 cage' g'
           = Some (Returns (sorted Z.le sample_items), cage'', g'')
           ∧ _items cage'' ≡ₚ sample_items)
  ∧ (LotteryBlower_inspect Z.le (mkLotteryBlower sample_items) sample_rng
     = (Returns (sorted Z.le sample_items), mkLotteryBlower sample_items,
        sample_rng))
  ∧ (TomboList_inspect Z.le sample_items sample_rng
     = (Returns (sorted Z.le sample_items), sample_items, sample_rng)).
Proof.
  split; [simpl; lia|].
  apply (inspect_sorted_idempotent_nondestructive Z.le sample_items
           sample_rng 5).
  simpl; lia.
Defined.

Lemma loaded_false_iff_pick_raises_witness :
  length sample_items < 5
  ∧ (∃ b cage' g',
       BingoCage_loaded Z.le 5 (mkBingoCage sample_items) sample_rng
       = Some (Returns b, cage', g')
       ∧ (b = false ↔ raises (BingoCage_pick cage' g') LookupError)
       ∧ (b = false ↔ sample_items = []))
  ∧ (∃ b,
       LotteryBlower_loaded (mkLotteryBlower sample_items) sample_rng
       = (Returns b, mkLotteryBlower sample_items, sample_rng)
       ∧ (b = false
          ↔ raises (LotteryBlower_pick (mkLotteryBlower sample_items)
                      sample_rng) LookupError)
       ∧ (b = false ↔ sample_items = []))
  ∧ (∃ b,
       TomboList_loaded sample_items sample_rng
       = (Returns b, sample_items, sample_rng)
       ∧ (b = false ↔ raises (TomboList_pick sample_items sample_rng)
                        LookupError)
       ∧ (b = false ↔ sample_items = [])).
Proof.
  split; [simpl; lia|].
  apply (loaded_false_iff_pick_raises Z.le sample_items sample_rng 5).
  simpl; lia.
Defined.

Lemma load_nothing_keeps_inspect_witness :
  length sample_items < 5
  ∧ (∃ cage' g',
       BingoCage_load (mkBingoCage sample_items) [] sample_rng
       = (Returns (), cage', g')
       ∧ (∀ g1, ∃ cage1 g1',
            BingoCage_inspect Z.le 5 (mkBingoCage sample_items) g1
            = Some (Returns (sorted Z.le sample_items), cage1, g1'))
       ∧ (∀ g1, ∃ cage1 g1',
            BingoCage_inspect Z.le 5 cage' g1
            = Some (Returns (sorted Z.le sample_items), cage1, g1')))
  ∧ (LotteryBlower_load (mkLotteryBlower sample_items) [] sample_rng
     = (Returns (), mkLotteryBlower sample_items, sample_rng))
  ∧ (TomboList_load sample_items [] sample_rng
     = (Raises AttributeError, sample_items, sample_rng)).
Proof.
  split; [simpl; lia|].
  apply (load_nothing_keeps_inspect Z.le sample_items sample_rng 5).
  simpl; lia.
Defined.

Lemma inherited_reads_keep_multiset_not_order_witness :
  length [1; 2; 1; 3]%Z < 5
  ∧ (∃ t cage' g',
       BingoCage_inspect Z.le 5 (mkBingoCage [1; 2; 1; 3]%Z) sample_rng
       = Some (Returns t, cage', g')
       ∧ BingoCage_load (mkBingoCage []) (reverse [1; 2; 1; 3]%Z) sample_rng
         = (Returns (), cage', g')
       ∧ _items cage' ≡ₚ [1; 2; 1; 3]%Z)
  ∧ (∃ b cage' g',
       BingoCage_loaded Z.le 5 (mkBingoCage [1; 2; 1; 3]%Z) sample_rng
       = Some (Returns b, cage', g')
       ∧ BingoCage_load (mkBingoCage []) (reverse [1; 2; 1; 3]%Z) sample_rng
         = (Returns (), cage', g')
       ∧ _items cage' ≡ₚ [1; 2; 1; 3]%Z)
  ∧ (∀ l', l' ≡ₚ [1; 2; 1; 3]%Z →
       ∃ g0 t b g',
         BingoCage_inspect Z.le 5 (mkBingoCage [1; 2; 1; 3]%Z) g0
         = Some (Returns t, mkBingoCage l', g')
         ∧ BingoCage_loaded Z.le 5 (mkBingoCage [1; 2; 1; 3]%Z) g0
           = Some (Returns b, mkBingoCage l', g'))
  ∧ (∀ x y l0, [1; 2; 1; 3]%Z = x :: y :: l0 → x ≠ y →
       ∃ g0 t cage' g',
         BingoCage_inspect Z.le 5 (mkBingoCage [1; 2; 1; 3]%Z) g0
         = Some (Returns t, cage', g')
         ∧ _items cage' ≠ [1; 2; 1; 3]%Z).
Proof.
  split; [simpl; lia|].
  apply (inherited_reads_keep_multiset_not_order Z.le [1; 2; 1; 3]%Z
           sample_rng 5).
  simpl; lia.
Defined.

Lemma inspect_empty_and_exceptions_witness :
  picks_run Faulty_pick (mkFaulty [1; 2]%Z) sample_rng [1; 2]%Z
    (mkFaulty []) sample_rng
  ∧ Faulty_pick (mkFaulty []) sample_rng
    = (Raises ValueError, mkFaulty [], sample_rng)
  ∧ @Tombola_inspect Z Z.le _ Faulty Faulty_Tombola 5 (mkFaulty [1; 2]%Z)
      sample_rng
    = Some (Raises ValueError, mkFaulty [], sample_rng).
Proof.
  assert (picks_run Faulty_pick (mkFaulty [1; 2]%Z) sample_rng [1; 2]%Z
            (mkFaulty []) sample_rng) as Hrun.
  { eapply picks_run_cons; [reflexivity|].
    eapply picks_run_cons; [reflexivity|]. constructor. }
  split; [exact Hrun|]. split; [reflexivity|].
  apply (proj1 (proj1 (proj2 (proj2 (proj2
    (inspect_empty_and_exceptions Z.le sample_rng 5))))
    Faulty Faulty_Tombola (mkFaulty [1; 2]%Z) (mkFaulty []) (mkFaulty [])
    [1; 2]%Z sample_rng sample_rng ValueError Hrun eq_refl)).
  simpl; lia.
Defined.

(** * More on the pickers *)

(** ** Random sources with given draws *)

Lemma reads_rng_of draws : reads (rng_of draws) draws.
Proof. intros k d Hk. simpl. by rewrite Hk. Qed.

Lemma reads_cons g d draws :
  reads g (d :: draws) →
  tape g (cursor g) = d ∧ reads (mkRng (tape g) (S (cursor g))) draws.
Proof.
  intros Hg. split.
  - rewrite <-(Hg 0 d eq_refl). f_equal. lia.
  - intros k c Hk. simpl. rewrite <-(Hg (S k) c Hk). f_equal. lia.
Qed.

Section more_Tombola_facts.
Context {Item : Type} (le : relation Item) `{!RelDecision le}.
Implicit Types (items l S t : list Item) (g : Rng) (x : Item).

(** ** Any run of loads and picks *)

Lemma BingoCage_load_conserving : conserving _items (@BingoCage_load Item).
Proof.
  intros [l] items g. unfold BingoCage_load, list_extend. simpl.
  pose proof (shuffle_Permutation (l ++ items) g) as Hp.
  destruct (shuffle (l ++ items) g) as [l' g']. by exists (mkBingoCage l'), g'.
Qed.

Lemma LotteryBlower_load_conserving :
  conserving _balls (@LotteryBlower_load Item).
Proof. intros [l] items g. by eexists _, _. Qed.

Lemma serve_conserves {T : Type} (contents : T → list Item)
    (load : T → list Item → Rng → call T unit)
    (pick : T → Rng → call T Item) :
  lossless contents pick → conserving contents load →
  ∀ requests picked self g,
    ∃ out self' g',
      serve load pick requests picked self g = (Returns out, self', g')
      ∧ out ++ contents self' ≡ₚ picked ++ contents self ++ loaded_by requests.
Proof.
  intros Hpick Hload requests.
  induction requests as [|[items|] rest IH]; intros picked self g; simpl.
  - exists picked, self, g. by rewrite app_nil_r.
  - destruct (Hload self items g) as (s1 & g1 & -> & Hp).
    destruct (IH picked s1 g1) as (out & s2 & g2 & -> & Hout).
    exists out, s2, g2. split; [done|].
    by rewrite Hout, Hp, <-!app_assoc.
  - specialize (Hpick self g).
    destruct (pick self g) as [[[x|e] s1] g1].
    + destruct (IH (picked ++ [x]) s1 g1) as (out & s2 & g2 & -> & Hout).
      exists out, s2, g2. split; [done|].
      rewrite Hout, Hpick, <-!app_assoc. simpl.
      by rewrite Permutation_middle.
    + destruct Hpick as (-> & Hnil & ->). simpl. apply IH.
Qed.

(** X1: Whatever the loads and picks asked of a [BingoCage] or of a
    [LotteryBlower], in whatever order, and whatever the random source
    draws: the run ends without an exception, and the items picked together
    with the items still stored are the items stored at first together
    with the items loaded, as multisets. *)
Theorem loads_and_picks_conserve_items (requests : list request) picked l g :
  (∃ out cage' g',
     serve BingoCage_load BingoCage_pick requests picked (mkBingoCage l) g
     = (Returns out, cage', g')
     ∧ out ++ _items cage' ≡ₚ picked ++ l ++ loaded_by requests)
  ∧ (∃ out blower' g',
       serve LotteryBlower_load LotteryBlower_pick requests picked
         (mkLotteryBlower l) g
       = (Returns out, blower', g')
       ∧ out ++ _balls blower' ≡ₚ picked ++ l ++ loaded_by requests).
Proof.
  split.
  - apply (serve_conserves _items);
      [apply BingoCage_pick_lossless | apply BingoCage_load_conserving].
  - apply (serve_conserves _balls);
      [apply LotteryBlower_pick_lossless | apply LotteryBlower_load_conserving].
Qed.

(** ** Every order of picks is possible *)

Lemma LotteryBlower_pick_at l i x g :
  l !! i = Some x → tape g (cursor g) = i →
  LotteryBlower_pick (mkLotteryBlower l) g
  = (Returns x, mkLotteryBlower (delete i l), mkRng (tape g) (S (cursor g))).
Proof.
  intros Hi Hg. pose proof (lookup_lt_Some _ _ _ Hi) as Hlt.
  unfold LotteryBlower_pick, randrange, _randbelow. simpl.
  rewrite decide_True by lia.
  rewrite Hg, Nat.mod_small by done.
  by rewrite (list_pop_at_Some _ _ _ Hi).
Qed.

Lemma TomboList_pick_at l i x g :
  l !! i = Some x → tape g (cursor g) = i →
  TomboList_pick l g = (Returns x, delete i l, mkRng (tape g) (S (cursor g))).
Proof.
  intros Hi Hg. pose proof (lookup_lt_Some _ _ _ Hi) as Hlt.
  unfold TomboList_pick, randrange, _randbelow.
  destruct l as [|y l]; [done|]. cbn [bool_of_seq].
  rewrite decide_True by (simpl; lia).
  rewrite Hg, Nat.mod_small by done.
  by rewrite (list_pop_at_Some _ _ _ Hi).
Qed.

(** A picker that removes the item at the drawn index can hand out the
    stored items in any order. *)
Lemma index_drain_reaches {T : Type} (mk : list Item → T)
    (pick : T → Rng → call T Item) :
  (∀ g, pick (mk []) g = (Raises LookupError, mk [], g)) →
  (∀ l i x g, l !! i = Some x → tape g (cursor g) = i →
     pick (mk l) g
     = (Returns x, mk (delete i l), mkRng (tape g) (S (cursor g)))) →
  ∀ t l acc, t ≡ₚ l →
    ∃ draws, ∀ g fuel, reads g draws → length l < fuel →
      ∃ g', pick_until_LookupError pick fuel acc (mk l) g
            = Some (Returns (acc ++ t), mk [], g').
Proof.
  intros Hnil Hat t. induction t as [|x t IH]; intros l acc Hp.
  - apply Permutation_nil in Hp as ->. exists []. intros g [|fuel] _ Hlen.
    { simpl in Hlen. lia. }
    exists g. simpl. by rewrite Hnil, app_nil_r.
  - assert (x ∈ l) as Hx by (rewrite <-Hp; left).
    apply list_elem_of_lookup in Hx as [i Hi].
    assert (t ≡ₚ delete i l) as Hp'.
    { apply (Permutation_cons_inv (a := x)).
      by rewrite Hp, <-(delete_Permutation l i x). }
    destruct (IH (delete i l) (acc ++ [x]) Hp') as [draws Hdraws].
    exists (i :: draws). intros g [|fuel] Hg Hlen; [lia|].
    apply reads_cons in Hg as [Hg0 Hg].
    cbn [pick_until_LookupError]. rewrite (Hat l i x g Hi Hg0).
    destruct (Hdraws _ fuel Hg) as [g' Hrun].
    { pose proof (Permutation_length Hp) as Hl.
      pose proof (Permutation_length Hp') as Hl'. simpl in Hl. lia. }
    exists g'. by rewrite Hrun, <-app_assoc.
Qed.

(** X2: For every order [t] of the items [S], some run of the random source
    makes the picks come out in that order: from a [BingoCage] built with
    [S] (the order is settled by the shuffle of the constructor, and the
    picks draw nothing), from a [LotteryBlower] and from a [TomboList]. *)
Theorem every_pick_order_is_possible S t fuel :
  t ≡ₚ S → length S < fuel →
  (∃ g cage g1,
     BingoCage_init S g = (Returns (), cage, g1)
     ∧ ∀ g2, pick_until_LookupError BingoCage_pick fuel [] cage g2
             = Some (Returns t, mkBingoCage [], g2))
  ∧ (∃ g g',
       pick_until_LookupError LotteryBlower_pick fuel []
         (LotteryBlower_init S) g
       = Some (Returns t, mkLotteryBlower [], g'))
  ∧ (∃ g g',
       pick_until_LookupError TomboList_pick fuel [] (TomboList_init S) g
       = Some (Returns t, [], g')).
Proof.
  intros Hp Hlen. split_and!.
  - destruct (shuffle_reaches S (reverse t)) as [g Hg].
    { by rewrite reverse_Permutation. }
    exists g, (mkBingoCage (reverse t)), (shuffle S g).2. split.
    + unfold BingoCage_init, BingoCage_load, list_extend. simpl.
      rewrite <-Hg. by destruct (shuffle S g).
    + intros g2. rewrite pick_until_LookupError_BingoCage.
      * by rewrite reverse_involutive.
      * by rewrite length_reverse, (Permutation_length Hp).
  - destruct (index_drain_reaches mkLotteryBlower LotteryBlower_pick
                LotteryBlower_pick_nil LotteryBlower_pick_at t S [] Hp)
      as [draws Hdraws].
    exists (rng_of draws).
    by apply Hdraws; [apply reads_rng_of|].
  - destruct (index_drain_reaches id TomboList_pick
                TomboList_pick_nil TomboList_pick_at t S [] Hp)
      as [draws Hdraws].
    exists (rng_of draws).
    by apply (Hdraws (rng_of draws) fuel); [apply reads_rng_of|].
Qed.

(** ** A [pick] that never raises *)

(** X3: The loop of the inherited [inspect] ends only at an exception of
    [pick]: on an object whose [pick] returns an item on every call, as
    [Fake.pick] does, no number of iterations ends it. *)
Theorem inspect_loop_needs_LookupError {T : Type}
    (pick : T → Rng → call T Item) :
  (∀ self g, ∃ x self' g', pick self g = (Returns x, self', g')) →
  ∀ fuel items self g, pick_until_LookupError pick fuel items self g = None.
Proof.
  intros Hpick fuel. induction fuel as [|fuel IH]; intros items self g; [done|].
  simpl. destruct (Hpick self g) as (x & self' & g' & ->). apply IH.
Qed.

(** ** The inherited methods on any conforming subclass *)

Lemma Tombola_inspect_conforming {T : Type} {HT : Tombola T}
    (contents : T → list Item) fuel self g :
  lossless contents pick → conserving contents load →
  length (contents self) < fuel →
  ∃ drained self' g',
    Tombola_inspect le fuel self g = Some (Returns (sorted le drained), self', g')
    ∧ drained ≡ₚ contents self
    ∧ contents self' ≡ₚ contents self.
Proof.
  intros Hpick Hload Hlen. unfold Tombola_inspect.
  destruct (pick_until_LookupError_lossless contents pick Hpick fuel [] self g
              Hlen) as (out & s1 & g1 & -> & Hout & Hnil).
  destruct (Hload s1 out g1) as (s2 & g2 & -> & Hp).
  exists out, s2, g2. split_and!; [done|done|].
  by rewrite Hp, Hnil.
Qed.

Lemma Tombola_loaded_conforming {T : Type} {HT : Tombola T}
    (contents : T → list Item) fuel self g :
  lossless contents pick → conserving contents load →
  length (contents self) < fuel →
  ∃ self' g',
    Tombola_loaded le fuel self g
    = Some (Returns (bool_of_seq (contents self)), self', g')
    ∧ contents self' ≡ₚ contents self.
Proof.
  intros Hpick Hload Hlen. unfold Tombola_loaded.
  destruct (Tombola_inspect_conforming contents fuel self g Hpick Hload Hlen)
    as (out & s1 & g1 & -> & Hout & Hp).
  exists s1, g1. split; [|done].
  rewrite (bool_of_seq_Permutation (sorted le out) (contents self)); [done|].
  by rewrite sorted_Permutation.
Qed.

(** X4: For any subclass of [Tombola] whose [pick] loses nothing and whose
    [load] keeps what is stored and adds the given items, and for a total
    order on the items: the inherited [inspect] ends, returns the sorted
    form of the stored items and leaves the same multiset stored, and the
    inherited [loaded] tells whether an item is stored. *)
Theorem inherited_methods_on_conforming_subclass
    `{!PartialOrder le, !Total le} {T : Type} {HT : Tombola T}
    (contents : T → list Item) fuel self g :
  lossless contents pick → conserving contents load →
  length (contents self) < fuel →
  (∃ self' g',
     Tombola_inspect le fuel self g
     = Some (Returns (sorted le (contents self)), self', g')
     ∧ contents self' ≡ₚ contents self)
  ∧ (∃ self' g',
       Tombola_loaded le fuel self g
       = Some (Returns (bool_of_seq (contents self)), self', g')
       ∧ contents self' ≡ₚ contents self).
Proof.
  intros Hpick Hload Hlen. split.
  - destruct (Tombola_inspect_conforming contents fuel self g Hpick Hload Hlen)
      as (out & s1 & g1 & -> & Hout & Hp).
    exists s1, g1. by rewrite (sorted_Permutation_eq le out (contents self)).
  - by apply Tombola_loaded_conforming.
Qed.

(** X5: The overrides of [LotteryBlower] return what the methods it would
    inherit return, for a total order on the items; the inherited ones
    leave the balls stored in the order they were drawn. *)
Theorem LotteryBlower_overrides_agree `{!PartialOrder le, !Total le}
    l g fuel :
  length l < fuel →
  (∃ blower' g',
     Tombola_inspect le fuel (mkLotteryBlower l) g
     = Some ((LotteryBlower_inspect le (mkLotteryBlower l) g).1.1,
             blower', g')
     ∧ _balls blower' ≡ₚ l)
  ∧ (∃ blower' g',
       Tombola_loaded le fuel (mkLotteryBlower l) g
       = Some ((LotteryBlower_loaded (mkLotteryBlower l) g).1.1,
               blower', g')
       ∧ _balls blower' ≡ₚ l).
Proof.
  intros Hlen. split.
  - destruct (Tombola_inspect_conforming (HT := LotteryBlower_Tombola)
                _balls fuel (mkLotteryBlower l) g
                LotteryBlower_pick_lossless LotteryBlower_load_conserving
                Hlen) as (out & s1 & g1 & -> & Hout & Hp).
    exists s1, g1. simpl. by rewrite (sorted_Permutation_eq le out l).
  - by apply (Tombola_loaded_conforming (HT := LotteryBlower_Tombola) _balls);
      [apply LotteryBlower_pick_lossless
      |apply LotteryBlower_load_conserving|].
Qed.
End more_Tombola_facts.

(** * Classes: what can be instantiated, what is found *)


(** Under [ABCMeta] the abstract methods of a class are the names that the
    lookup finds bound to an abstract function. *)
Lemma abstractmethods_lookup (c : class_stmt) name :
  uses_ABCMeta c = true →
  name ∈ abstractmethods c ↔ class_lookup c name = Some Abstract.
Proof.
  induction c as [b|n base IH abstract concrete]; intros Hmeta.
  - simpl. split; [by intros ?%elem_of_nil|].
    destruct b; simpl; try done.
  - simpl in Hmeta. simpl. rewrite Hmeta.
    rewrite elem_of_app, list_elem_of_filter, elem_of_app, (IH Hmeta).
    destruct (decide (name ∈ abstract)) as [Ha|Ha]; [by split; [|left]|].
    destruct (decide (name ∈ concrete)) as [Hc|Hc].
    + split; [|done]. intros [?|[Hn _]]; [done|]. destruct Hn. by right.
    + split; [by intros [?|[_ ?]]|]. intros Hb. right. split; [|done].
      by intros [?|?].
Qed.


(** X6: For the classes of a chain of single bases, as all the classes of
    the notebook are: a class under [ABCMeta] can be instantiated exactly
    when the lookup, body first and then base after base, finds none of its
    names bound to an abstract function, and instantiating it raises
    [TypeError] otherwise.  So [BingoCage] and [LotteryBlower] can be
    instantiated, and a class that inherits from [BingoCage] and defines
    nothing can; [Fake], which defines [pick] only, raises [TypeError] with
    [load] as the one abstract method left; [Tombola] cannot be
    instantiated. *)
Theorem instantiable_iff_no_abstract_method (c : class_stmt) :
  uses_ABCMeta c = true →
  (∀ name, name ∈ abstractmethods c ↔ class_lookup c name = Some Abstract)
  ∧ (instantiate c = Done ()
     ↔ ∀ name, class_lookup c name ≠ Some Abstract)
  ∧ (instantiate c = Throws TypeError
     ↔ ∃ name, class_lookup c name = Some Abstract)
  ∧ instantiate BingoCage_class = Done ()
  ∧ instantiate LotteryBlower_class = Done ()
  ∧ (∀ name, instantiate (mkClass name BingoCage_class [] []) = Done ())
  ∧ instantiate Fake_class = Throws TypeError
  ∧ abstractmethods Fake_class = ["load"]
  ∧ instantiate Tombola_class = Throws TypeError.
Proof.
  intros Hmeta. split_and!; try done.
  - intros name. by apply abstractmethods_lookup.
  - unfold instantiate. case_decide as Hc; split; try done.
    + intros _ name Hname. apply abstractmethods_lookup in Hname; [|done].
      rewrite Hc in Hname. by apply elem_of_nil in Hname.
    + intros Hnone. destruct (abstractmethods c) as [|name names] eqn:Ha;
        [done|].
      destruct (Hnone name). apply abstractmethods_lookup; [done|].
      rewrite Ha. left.
  - unfold instantiate. case_decide as Hc; split; try done.
    + intros (name & Hname). apply abstractmethods_lookup in Hname; [|done].
      rewrite Hc in Hname. by apply elem_of_nil in Hname.
    + intros _. destruct (abstractmethods c) as [|name names] eqn:Ha;
        [done|].
      exists name. apply abstractmethods_lookup; [done|]. rewrite Ha. left.
Qed.

Lemma instantiable_iff_no_abstract_method_witness :
  uses_ABCMeta Fake_class = true
  ∧ (instantiate Fake_class = Throws TypeError
     ↔ ∃ name, class_lookup Fake_class name = Some Abstract)
  ∧ class_lookup Fake_class "load" = Some Abstract.
Proof.
  split; [reflexivity|]. split; [|reflexivity].
  apply (instantiable_iff_no_abstract_method Fake_class). reflexivity.
Defined.



(** * Integer positions *)

Lemma list_index_lt n position i : list_index n position = Some i → i < n.
Proof. unfold list_index. repeat case_decide; intros; simplify_eq; lia. Qed.

Lemma list_index_nat n i : i < n → list_index n (Z.of_nat i) = Some i.
Proof.
  intros Hi. unfold list_index. rewrite decide_True by lia.
  by rewrite Nat2Z.id.
Qed.

Lemma list_index_negative n position :
  (- Z.of_nat n ≤ position < 0)%Z →
  list_index n position = list_index n (Z.of_nat n + position).
Proof.
  intros Hp. unfold list_index.
  rewrite decide_False, decide_True by lia.
  by rewrite decide_True by lia.
Qed.

Lemma list_index_None n position :
  list_index n position = None
  ↔ (position < - Z.of_nat n ∨ Z.of_nat n ≤ position)%Z.
Proof. unfold list_index. repeat case_decide; split; (done || lia). Qed.

Section positions_facts.
Context {A : Type}.
Implicit Types (l : list A) (v x : A) (position : Z).

Lemma list_getitem_nat l i x :
  l !! i = Some x → list_getitem l (Z.of_nat i) = Done x.
Proof.
  intros Hi. unfold list_getitem.
  rewrite list_index_nat by (by eapply lookup_lt_Some). simpl. by rewrite Hi.
Qed.

Lemma list_setitem_nat l i v :
  i < length l → list_setitem l (Z.of_nat i) v = (Done (), <[i:=v]> l).
Proof. intros Hi. unfold list_setitem. by rewrite list_index_nat. Qed.

Lemma list_getitem_Done l position x :
  list_getitem l position = Done x
  ↔ ∃ i, list_index (length l) position = Some i ∧ l !! i = Some x.
Proof.
  unfold list_getitem.
  destruct (list_index (length l) position) as [i|]; simpl.
  - destruct (l !! i) as [y|] eqn:Hi; split.
    + intros [= ->]. by exists i.
    + intros (? & [= <-] & ?). congruence.
    + done.
    + intros (? & [= <-] & ?). congruence.
  - split; [done|]. by intros (? & ? & ?).
Qed.

Lemma list_getitem_Throws l position r :
  list_getitem l position = Throws r
  ↔ r = Exn IndexError
    ∧ (position < - Z.of_nat (length l) ∨ Z.of_nat (length l) ≤ position)%Z.
Proof.
  rewrite <-list_index_None. unfold list_getitem.
  destruct (list_index (length l) position) as [i|] eqn:Hi; simpl.
  - destruct (lookup_lt_is_Some_2 l i) as [x ->].
    { by eapply list_index_lt. }
    split; [done|]. by intros [_ ?].
  - split; [by intros [= <-]|by intros [-> _]].
Qed.
End positions_facts.

(** * The card decks *)

(** ** The comprehension *)

Lemma cards_of_cons ranks s suits :
  cards_of ranks (s :: suits)
  = ((λ r, mkCard r s) <$> ranks) ++ cards_of ranks suits.
Proof.
  assert ((ranks ≫= λ r, [mkCard r s]) = (λ r, mkCard r s) <$> ranks) as Hs.
  { induction ranks as [|r ranks IH]; [done|]. simpl. by f_equal. }
  by rewrite <-Hs.
Qed.

Lemma length_cards_of ranks suits :
  length (cards_of ranks suits) = length suits * length ranks.
Proof.
  induction suits as [|s suits IH]; [done|].
  rewrite cards_of_cons, length_app, length_fmap, IH. simpl. lia.
Qed.

Lemma cards_of_lookup ranks suits i j r s :
  ranks !! i = Some r → suits !! j = Some s →
  cards_of ranks suits !! (j * length ranks + i) = Some (mkCard r s).
Proof.
  intros Hi. revert j. induction suits as [|s' suits IH]; intros [|j] Hj;
    try done; rewrite cards_of_cons; simpl in Hj.
  - injection Hj as ->. change (0 * length ranks + i) with i.
    rewrite lookup_app_l by (rewrite length_fmap; by eapply lookup_lt_Some).
    by rewrite list_lookup_fmap, Hi.
  - rewrite lookup_app_r by (rewrite length_fmap; lia).
    rewrite length_fmap.
    replace (S j * length ranks + i - length ranks)
      with (j * length ranks + i) by lia.
    by apply IH.
Qed.

Lemma elem_of_cards_of ranks suits c :
  c ∈ cards_of ranks suits ↔ rank c ∈ ranks ∧ suit c ∈ suits.
Proof.
  induction suits as [|s suits IH].
  - split; [by intros ?%elem_of_nil|]. by intros [_ ?%elem_of_nil].
  - rewrite cards_of_cons, elem_of_app, IH, list_elem_of_fmap, elem_of_cons.
    split.
    + intros [(r & -> & Hr)|[??]]; simpl; auto.
    + intros [Hr [Hs|Hs]]; [left|by right].
      exists (rank c). split; [|done]. destruct c; simpl in *. by subst.
Qed.

Lemma NoDup_cards_of ranks suits :
  NoDup ranks → NoDup suits → NoDup (cards_of ranks suits).
Proof.
  intros Hr. induction 1 as [|s suits Hs Hsuits IH]; [constructor|].
  rewrite cards_of_cons. apply NoDup_app. split_and!.
  - apply NoDup_fmap_2; [|done]. by intros r1 r2 [= ->].
  - intros c (r & -> & _)%list_elem_of_fmap [_ Hin]%elem_of_cards_of.
    by destruct Hs.
  - done.
Qed.

(** X8: The comprehension of [FrenchDeck.__init__] makes one card for each
    pair of a suit and a rank, suit by suit: as many cards as pairs, the
    card of the rank at [i] and of the suit at [j] at position
    [j * len(ranks) + i], and no card twice when no rank and no suit is
    written twice.  With the ranks and suits of the class, this is a deck of
    52 different cards. *)
Theorem FrenchDeck_init_cards :
  (∀ ranks suits,
     length (cards_of ranks suits) = length suits * length ranks
     ∧ (∀ c, c ∈ cards_of ranks suits ↔ rank c ∈ ranks ∧ suit c ∈ suits)
     ∧ (∀ i j r s, ranks !! i = Some r → suits !! j = Some s →
          cards_of ranks suits !! (j * length ranks + i)
          = Some (mkCard r s))
     ∧ (NoDup ranks → NoDup suits → NoDup (cards_of ranks suits)))
  ∧ ranks = ["2"; "3"; "4"; "5"; "6"; "7"; "8"; "9"; "10"; "J"; "Q"; "K"; "A"]
  ∧ suits = ["spades"; "diamonds"; "clubs"; "hearts"]
  ∧ FrenchDeck_len FrenchDeck_init = 52
  ∧ NoDup (_cards FrenchDeck_init).
Proof.
  split_and!; try done.
  - intros rs ss. split_and!.
    + apply length_cards_of.
    + intros c. apply elem_of_cards_of.
    + intros i j r s. apply cards_of_lookup.
    + apply NoDup_cards_of.
  - apply NoDup_cards_of; compute_done.
Qed.

(** ** Reading a deck *)

(** X9: [deck[position]] on a [FrenchDeck] of [n] cards: the positions from
    [-n] to [n - 1] give a card of the deck, [position] and [position - n]
    the same one, and every other position raises [IndexError], the only
    exception there is.  On a new deck the card of the rank at [i] and of
    the suit at [j] is at position [13 * j + i]. *)
Theorem FrenchDeck_getitem_positions (self : FrenchDeck) :
  let n := Z.of_nat (FrenchDeck_len self) in
  (∀ i c, _cards self !! i = Some c →
          FrenchDeck_getitem self (Z.of_nat i) = Done c
          ∧ FrenchDeck_getitem self (Z.of_nat i - n) = Done c)
  ∧ (∀ position c, FrenchDeck_getitem self position = Done c →
       c ∈ _cards self ∧ (- n ≤ position < n)%Z)
  ∧ (∀ position r, FrenchDeck_getitem self position = Throws r ↔
       r = Exn IndexError ∧ (position < - n ∨ n ≤ position)%Z)
  ∧ (∀ i j r s, ranks !! i = Some r → suits !! j = Some s →
       FrenchDeck_getitem FrenchDeck_init (Z.of_nat (13 * j + i))
       = Done (mkCard r s)).
Proof.
  intros n. unfold FrenchDeck_getitem, FrenchDeck_len in *. split_and!.
  - intros i c Hi. pose proof (lookup_lt_Some _ _ _ Hi) as Hlt.
    split; [by apply list_getitem_nat|].
    apply list_getitem_Done. exists i. split; [|done].
    rewrite list_index_negative by lia.
    replace (Z.of_nat (length (_cards self)) + (Z.of_nat i - n))%Z
      with (Z.of_nat i) by lia.
    by apply list_index_nat.
  - intros position c (i & Hidx & Hi)%list_getitem_Done. split.
    + apply list_elem_of_lookup. by exists i.
    + destruct (decide (- n ≤ position < n)%Z) as [|Hout]; [done|].
      assert (list_index (length (_cards self)) position = None) as Hnone
        by (apply list_index_None; lia).
      congruence.
  - intros position r. apply list_getitem_Throws.
  - intros i j r s Hi Hj. apply list_getitem_nat.
    change (_cards FrenchDeck_init) with (cards_of ranks suits).
    replace (13 * j + i) with (j * length ranks + i)
      by (change (length ranks) with 13; lia).
    by apply cards_of_lookup.
Qed.

(** ** Shuffling a deck *)

Section shuffle_object_facts.
Context {X A : Type} (view : X → list A) (mk : list A → X).
Context (getitem : X → Z → result A) (setitem : X → Z → A → result unit * X).
Hypothesis view_mk : ∀ l, view (mk l) = l.
Hypothesis getitem_view : ∀ x position,
  getitem x position = list_getitem (view x) position.
Hypothesis setitem_view : ∀ x position value,
  setitem x position value
  = ((list_setitem (view x) position value).1,
     mk (list_setitem (view x) position value).2).

(** On an object that reads and writes a list, the loop of [shuffle] does
    what it does on the list itself. *)
Lemma shuffle_object_from_list i l g :
  i < length l ∨ i = 0 →
  shuffle_object_from getitem setitem i (mk l) g
  = (Done (), mk (shuffle_from i l g).1, (shuffle_from i l g).2).
Proof.
  revert l g. induction i as [|i IH]; intros l g Hi; [done|].
  destruct Hi as [Hi|?]; [|done].
  cbn [shuffle_object_from shuffle_from].
  pose proof (_randbelow_lt (S (S i)) g) as Hj.
  destruct (_randbelow (S (S i)) g) as [j g'] eqn:Hdraw. simpl in Hj.
  destruct (lookup_lt_is_Some_2 l j) as [xj Hxj]; [lia|].
  destruct (lookup_lt_is_Some_2 l (S i)) as [xi Hxi]; [lia|].
  rewrite !getitem_view, view_mk.
  rewrite (list_getitem_nat _ _ _ Hxj), (list_getitem_nat _ _ _ Hxi).
  rewrite setitem_view, view_mk, list_setitem_nat by lia. simpl.
  rewrite setitem_view, view_mk, list_setitem_nat
    by (rewrite length_insert; lia). simpl.
  rewrite IH by (rewrite !length_insert; lia).
  unfold swap. by rewrite Hxj, Hxi.
Qed.
End shuffle_object_facts.

Lemma FrenchDeck_shuffle_patched_run deck g :
  FrenchDeck_shuffle FrenchDeck_patched deck g
  = (Done (), mkFrenchDeck (shuffle (_cards deck) g).1,
     (shuffle (_cards deck) g).2).
Proof.
  destruct deck as [l]. unfold FrenchDeck_shuffle, shuffle_object, shuffle.
  apply (shuffle_object_from_list _cards mkFrenchDeck).
  - done.
  - done.
  - intros [l'] position value.
    unfold FrenchDeck_setitem, FrenchDeck_patched, set_card. cbn [_cards].
    by destruct (list_setitem l' position value).
  - unfold FrenchDeck_len. simpl. lia.
Qed.

Lemma FrenchDeck2_shuffle_run deck g :
  FrenchDeck2_shuffle deck g
  = (Done (), mkFrenchDeck2 (shuffle (FrenchDeck2_cards deck) g).1,
     (shuffle (FrenchDeck2_cards deck) g).2).
Proof.
  destruct deck as [l]. unfold FrenchDeck2_shuffle, shuffle_object, shuffle.
  apply (shuffle_object_from_list FrenchDeck2_cards mkFrenchDeck2).
  - done.
  - done.
  - intros [l'] position value.
    unfold FrenchDeck2_setitem. cbn [FrenchDeck2_cards].
    by destruct (list_setitem l' position value).
  - unfold FrenchDeck2_len. simpl. lia.
Qed.

Lemma FrenchDeck_shuffle_as_written_raises (deck : FrenchDeck) g :
  2 ≤ FrenchDeck_len deck →
  FrenchDeck_shuffle FrenchDeck_as_written deck g
  = (Throws TypeError, deck, mkRng (tape g) (S (cursor g))).
Proof.
  intros Hlen.
  unfold FrenchDeck_shuffle, shuffle_object, FrenchDeck_len in *.
  destruct (length (_cards deck)) as [|[|k]] eqn:Hk; [lia|lia|].
  replace (S (S k) - 1) with (S k) by lia.
  cbn [shuffle_object_from].
  pose proof (_randbelow_lt (S (S k)) g) as Hj.
  destruct (_randbelow (S (S k)) g) as [j g'] eqn:Hdraw. simpl in Hj.
  assert (g' = mkRng (tape g) (S (cursor g))) as -> by (by injection Hdraw).
  destruct (lookup_lt_is_Some_2 (_cards deck) j) as [xj Hxj]; [lia|].
  destruct (lookup_lt_is_Some_2 (_cards deck) (S k)) as [xi Hxi]; [lia|].
  unfold FrenchDeck_getitem.
  by rewrite (list_getitem_nat _ _ _ Hxj), (list_getitem_nat _ _ _ Hxi).
Qed.

Lemma FrenchDeck_init_len : FrenchDeck_len FrenchDeck_init = 52.
Proof. reflexivity. Qed.

(** X10: [shuffle(deck)] on a [FrenchDeck] as the class statement leaves it: with
    two cards or more, so on every new deck, the first assignment raises
    [TypeError], after one draw and with the deck as it was; with fewer
    cards there is nothing to assign and the call returns. *)
Theorem FrenchDeck_shuffle_as_written (deck : FrenchDeck) g :
  (2 ≤ FrenchDeck_len deck →
   FrenchDeck_shuffle FrenchDeck_as_written deck g
   = (Throws TypeError, deck, mkRng (tape g) (S (cursor g))))
  ∧ (FrenchDeck_len deck < 2 →
     FrenchDeck_shuffle FrenchDeck_as_written deck g = (Done (), deck, g))
  ∧ FrenchDeck_shuffle FrenchDeck_as_written FrenchDeck_init g
    = (Throws TypeError, FrenchDeck_init, mkRng (tape g) (S (cursor g))).
Proof.
  split_and!.
  - apply FrenchDeck_shuffle_as_written_raises.
  - intros Hlen.
    unfold FrenchDeck_shuffle, shuffle_object, FrenchDeck_len in *.
    by destruct (length (_cards deck)) as [|[|k]]; [| |lia].
  - apply FrenchDeck_shuffle_as_written_raises.
    rewrite FrenchDeck_init_len. lia.
Qed.

(** X11: Once [FrenchDeck.__setitem__ = set_card] is done, and on a
    [FrenchDeck2] from the start, [shuffle(deck)] returns and leaves in the
    deck what [shuffle] makes of the list of cards: the same cards, as many,
    in some order, and any order for some run of the random source. *)
Theorem shuffle_deck_with_setitem (cards : list Card) g :
  (∃ deck' g',
     FrenchDeck_shuffle FrenchDeck_patched (mkFrenchDeck cards) g
     = (Done (), deck', g')
     ∧ _cards deck' ≡ₚ cards
     ∧ FrenchDeck_len deck' = length cards
     ∧ FrenchDeck2_shuffle (mkFrenchDeck2 cards) g
       = (Done (), mkFrenchDeck2 (_cards deck'), g'))
  ∧ (∀ t, t ≡ₚ cards →
       ∃ g0 g',
         FrenchDeck_shuffle FrenchDeck_patched (mkFrenchDeck cards) g0
         = (Done (), mkFrenchDeck t, g')
         ∧ FrenchDeck2_shuffle (mkFrenchDeck2 cards) g0
           = (Done (), mkFrenchDeck2 t, g')).
Proof.
  split.
  - eexists _, _. rewrite FrenchDeck_shuffle_patched_run. split; [done|].
    simpl. pose proof (shuffle_Permutation cards g) as Hp. split_and!.
    + done.
    + unfold FrenchDeck_len. simpl. by rewrite (Permutation_length Hp).
    + by rewrite FrenchDeck2_shuffle_run.
  - intros t Ht. destruct (shuffle_reaches cards t Ht) as [g0 Hg0].
    exists g0, (shuffle cards g0).2.
    rewrite FrenchDeck_shuffle_patched_run, FrenchDeck2_shuffle_run. simpl.
    by rewrite Hg0.
Qed.

(** ** Writing a deck *)

Section positions_update_facts.
Context {A : Type}.
Implicit Types (l : list A) (v x : A) (position : Z).

Lemma list_getitem_setitem_other l i v position q :
  list_index (length l) position = Some i →
  q ≠ position →
  q ≠ (position + Z.of_nat (length l))%Z →
  q ≠ (position - Z.of_nat (length l))%Z →
  list_getitem (<[i:=v]> l) q = list_getitem l q.
Proof.
  intros Hi Hq1 Hq2 Hq3. unfold list_getitem. rewrite length_insert.
  destruct (list_index (length l) q) as [k|] eqn:Hk; [|done]. simpl.
  rewrite list_lookup_insert_ne; [done|].
  unfold list_index in Hi, Hk. repeat case_decide; simplify_eq; lia.
Qed.

Lemma list_getitem_setitem_same l i v position :
  list_index (length l) position = Some i →
  list_getitem (<[i:=v]> l) position = Done v.
Proof.
  intros Hi. unfold list_getitem. rewrite length_insert, Hi. simpl.
  by rewrite list_lookup_insert_eq by (by eapply list_index_lt).
Qed.

Lemma list_index_in_range n position :
  (- Z.of_nat n ≤ position < Z.of_nat n)%Z →
  ∃ i, list_index n position = Some i.
Proof.
  intros Hp. destruct (list_index n position) as [i|] eqn:Hi; [by exists i|].
  apply list_index_None in Hi. lia.
Qed.

Lemma lookup_inserted l i v :
  i ≤ length l → (take i l ++ v :: drop i l) !! i = Some v.
Proof.
  intros Hi. rewrite lookup_app_r by (rewrite length_take; lia).
  by rewrite length_take_le, Nat.sub_diag by done.
Qed.

Lemma delete_inserted l i v :
  i ≤ length l → delete i (take i l ++ v :: drop i l) = l.
Proof.
  intros Hi. rewrite <-(length_take_le l i) at 1 by done.
  by rewrite delete_middle, take_drop.
Qed.

Lemma length_inserted l i v :
  length (take i l ++ v :: drop i l) = S (length l).
Proof.
  rewrite length_app. simpl. rewrite length_take, length_drop. lia.
Qed.

Lemma inserted_Permutation l i v : take i l ++ v :: drop i l ≡ₚ v :: l.
Proof. by rewrite <-Permutation_middle, take_drop. Qed.

Lemma list_insert_at_fits l position v :
  (PY_SSIZE_T_MIN ≤ position ≤ PY_SSIZE_T_MAX)%Z →
  (Z.of_nat (length l) < PY_SSIZE_T_MAX)%Z →
  list_insert_at l position v
  = (Done (), take (insert_index (length l) position) l
              ++ v :: drop (insert_index (length l) position) l).
Proof.
  intros Hp Hl. unfold list_insert_at.
  by rewrite decide_True, decide_False by lia.
Qed.

Lemma list_insert_at_Throws l position v r l' :
  list_insert_at l position v = (Throws r, l') → r = OverflowError ∧ l' = l.
Proof. unfold list_insert_at. repeat case_decide; by intros [= <- <-]. Qed.
End positions_update_facts.

(** X12: [deck[position] = value], by [set_card] on a [FrenchDeck] and by
    [__setitem__] on a [FrenchDeck2] with the same cards: for a position
    from [-n] to [n - 1] the deck keeps its length, the value is read back
    at that position, and what is read at every other position is what was
    read before; for any other position the call raises [IndexError] and
    the deck is as it was. *)
Theorem deck_setitem_getitem (cards : list Card) position value :
  let n := Z.of_nat (length cards) in
  ((- n ≤ position < n)%Z →
   ∃ cards',
     FrenchDeck2_setitem (mkFrenchDeck2 cards) position value
     = (Done (), mkFrenchDeck2 cards')
     ∧ set_card (mkFrenchDeck cards) position value
       = (Done (), mkFrenchDeck cards')
     ∧ length cards' = length cards
     ∧ FrenchDeck2_getitem (mkFrenchDeck2 cards') position = Done value
     ∧ (∀ q, q ≠ position → q ≠ (position + n)%Z → q ≠ (position - n)%Z →
          FrenchDeck2_getitem (mkFrenchDeck2 cards') q
          = FrenchDeck2_getitem (mkFrenchDeck2 cards) q))
  ∧ ((position < - n ∨ n ≤ position)%Z →
     FrenchDeck2_setitem (mkFrenchDeck2 cards) position value
     = (Throws (Exn IndexError), mkFrenchDeck2 cards)
     ∧ set_card (mkFrenchDeck cards) position value
       = (Throws (Exn IndexError), mkFrenchDeck cards)).
Proof.
  intros n. unfold FrenchDeck2_setitem, set_card, FrenchDeck2_getitem.
  cbn [FrenchDeck2_cards _cards]. unfold list_setitem. split.
  - intros Hp. destruct (list_index_in_range _ _ Hp) as [i Hi].
    exists (<[i:=value]> cards). rewrite Hi. split_and!; try done.
    + apply length_insert.
    + by apply list_getitem_setitem_same.
    + intros q ???. by apply (list_getitem_setitem_other _ _ _ position).
  - intros Hp. by rewrite (proj2 (list_index_None _ _) Hp).
Qed.

(** X13: [del deck[position]] on a [FrenchDeck2] of [n] cards: for a position
    from [-n] to [n - 1] the card read at that position is taken out, one
    card fewer is left, and the others keep their order; for any other
    position the call raises [IndexError] and the deck is as it was. *)
Theorem FrenchDeck2_delitem_removes (cards : list Card) position :
  let n := Z.of_nat (length cards) in
  ((- n ≤ position < n)%Z →
   ∃ c cards',
     FrenchDeck2_getitem (mkFrenchDeck2 cards) position = Done c
     ∧ FrenchDeck2_delitem (mkFrenchDeck2 cards) position
       = (Done (), mkFrenchDeck2 cards')
     ∧ length cards = S (length cards')
     ∧ cards ≡ₚ c :: cards'
     ∧ cards' `sublist_of` cards)
  ∧ ((position < - n ∨ n ≤ position)%Z →
     FrenchDeck2_delitem (mkFrenchDeck2 cards) position
     = (Throws (Exn IndexError), mkFrenchDeck2 cards)).
Proof.
  intros n. unfold FrenchDeck2_delitem, FrenchDeck2_getitem.
  cbn [FrenchDeck2_cards]. unfold list_delitem, list_getitem. split.
  - intros Hp. destruct (list_index_in_range _ _ Hp) as [i Hi].
    pose proof (list_index_lt _ _ _ Hi) as Hlt.
    destruct (lookup_lt_is_Some_2 cards i Hlt) as [c Hc].
    exists c, (delete i cards). rewrite Hi. simpl. rewrite Hc.
    split_and!; try done.
    + rewrite length_delete by done. lia.
    + by apply delete_Permutation.
    + apply sublist_delete.
  - intros Hp. by rewrite (proj2 (list_index_None _ _) Hp).
Qed.

(** X14: [deck.insert(position, value)] on a [FrenchDeck2] of [n] cards.
    A position that does not fit a [Py_ssize_t] raises [OverflowError] and
    the deck is as it was; [OverflowError] is the only exception of
    [insert], and it leaves the deck as it was.  For a position that fits
    (and a deck shorter than the longest list there can be) the call
    returns and the deck has one card more: the value and the cards it had,
    these in their order.  For a position from [0] to [n] the value is read
    at that position, and deleting there gives the deck back; a larger
    position appends and a position below [-n] prepends; for a position
    from [-n] to [-1] the value goes before the card that was read there,
    which is still read there, the value being read one position before. *)
Theorem FrenchDeck2_insert_places (cards : list Card) position value :
  let n := Z.of_nat (length cards) in
  ((position < PY_SSIZE_T_MIN ∨ PY_SSIZE_T_MAX < position)%Z →
   FrenchDeck2_insert (mkFrenchDeck2 cards) position value
   = (Throws OverflowError, mkFrenchDeck2 cards))
  ∧ (∀ r deck',
       FrenchDeck2_insert (mkFrenchDeck2 cards) position value
       = (Throws r, deck') →
       r = OverflowError ∧ deck' = mkFrenchDeck2 cards)
  ∧ ((PY_SSIZE_T_MIN ≤ position ≤ PY_SSIZE_T_MAX)%Z →
     (n < PY_SSIZE_T_MAX)%Z →
     ∃ cards',
       FrenchDeck2_insert (mkFrenchDeck2 cards) position value
       = (Done (), mkFrenchDeck2 cards')
       ∧ length cards' = S (length cards)
       ∧ cards' ≡ₚ value :: cards
       ∧ cards `sublist_of` cards'
       ∧ ((0 ≤ position ≤ n)%Z →
          FrenchDeck2_getitem (mkFrenchDeck2 cards') position = Done value
          ∧ FrenchDeck2_delitem (mkFrenchDeck2 cards') position
            = (Done (), mkFrenchDeck2 cards))
       ∧ ((n ≤ position)%Z → cards' = cards ++ [value])
       ∧ ((position ≤ - n)%Z → cards' = value :: cards)
       ∧ ((- n ≤ position < 0)%Z →
          FrenchDeck2_getitem (mkFrenchDeck2 cards') (position - 1)
          = Done value
          ∧ FrenchDeck2_getitem (mkFrenchDeck2 cards') position
            = FrenchDeck2_getitem (mkFrenchDeck2 cards) position)).
Proof.
  intros n.
  unfold FrenchDeck2_insert, FrenchDeck2_getitem, FrenchDeck2_delitem.
  cbn [FrenchDeck2_cards].
  split_and!.
  - intros Hp. unfold list_insert_at. by rewrite decide_False by lia.
  - intros r deck'.
    destruct (list_insert_at cards position value) as [r0 l'] eqn:Hins.
    intros [= -> <-].
    by destruct (list_insert_at_Throws _ _ _ _ _ Hins) as [-> ->].
  - intros Hfit Hn. rewrite list_insert_at_fits by done.
    eexists. split; [reflexivity|]. split_and!.
    + apply length_inserted.
    + apply inserted_Permutation.
    + rewrite <-(take_drop (insert_index (length cards) position) cards)
        at 1.
      apply sublist_app; [done|]. by apply sublist_cons.
    + intros Hp.
      assert (insert_index (length cards) position = Z.to_nat position)
        as Hi.
      { unfold insert_index. rewrite decide_False by lia. f_equal. lia. }
      assert (list_index (S (length cards)) position
              = Some (Z.to_nat position)) as Hidx.
      { unfold list_index. by rewrite decide_True by lia. }
      unfold list_getitem, list_delitem.
      rewrite length_inserted, Hidx. simpl. rewrite Hi.
      rewrite lookup_inserted, delete_inserted by lia. done.
    + intros Hp. unfold insert_index.
      rewrite decide_False by lia.
      replace (Z.to_nat (position `min` Z.of_nat (length cards)))
        with (length cards) by lia.
      by rewrite take_ge, drop_ge by done.
    + intros Hp. unfold insert_index.
      destruct (decide (position < 0)%Z).
      * by replace (Z.to_nat (0 `max` (Z.of_nat (length cards) + position)))
          with 0 by lia.
      * assert (length cards = 0) as Hnil by lia.
        apply nil_length_inv in Hnil as ->.
        by rewrite take_nil, drop_nil.
    + intros Hp.
      set (i := Z.to_nat (Z.of_nat (length cards) + position)).
      assert (insert_index (length cards) position = i) as Hi.
      { unfold insert_index. rewrite decide_True by lia. subst i.
        f_equal. lia. }
      assert (i < length cards) as Hlt by (subst i; lia).
      unfold list_getitem. rewrite length_inserted.
      assert (list_index (S (length cards)) (position - 1) = Some i) as ->.
      { unfold list_index. rewrite decide_False, decide_True by lia.
        f_equal. subst i. lia. }
      assert (list_index (S (length cards)) position = Some (S i)) as ->.
      { unfold list_index. rewrite decide_False, decide_True by lia.
        f_equal. subst i. lia. }
      assert (list_index (length cards) position = Some i) as ->.
      { unfold list_index. rewrite decide_False, decide_True by lia. done. }
      simpl. rewrite Hi.
      rewrite lookup_inserted by lia. split; [done|].
      rewrite lookup_app_r by (rewrite length_take; lia).
      rewrite length_take_le by lia.
      replace (S i - i) with 1 by lia. simpl.
      by rewrite lookup_drop, Nat.add_0_r.
Qed.

(** [deck.insert(2 ** 63, card)] and [deck.insert(-2 ** 63, card)] on a new
    deck. *)
Example FrenchDeck2_insert_at_the_limits :
  FrenchDeck2_insert FrenchDeck2_init (2 ^ 63) (mkCard "Joker" "none")
  = (Throws OverflowError, FrenchDeck2_init)
  ∧ FrenchDeck2_insert FrenchDeck2_init (- 2 ^ 63) (mkCard "Joker" "none")
    = (Done (),
       mkFrenchDeck2 (mkCard "Joker" "none" :: FrenchDeck2_cards
                                                 FrenchDeck2_init)).
Proof. split; reflexivity. Qed.

(** * Who reads the random source *)

Lemma shuffle_from_draws {A : Type} i (x : list A) g :
  (shuffle_from i x g).2 = mkRng (tape g) (cursor g + i).
Proof.
  revert x g. induction i as [|i IH]; intros x g.
  - destruct g. simpl. by rewrite Nat.add_0_r.
  - simpl. rewrite IH. simpl. f_equal. lia.
Qed.

Section random_source_facts.
Context {Item : Type}.
Implicit Types (l : list Item) (g : Rng).

Lemma index_drain_draws {T : Type} (mk : list Item → T)
    (pick : T → Rng → call T Item) :
  (∀ g, pick (mk []) g = (Raises LookupError, mk [], g)) →
  (∀ l g, l ≠ [] → ∃ i x, l !! i = Some x ∧
     pick (mk l) g
     = (Returns x, mk (delete i l), (_randbelow (length l) g).2)) →
  ∀ fuel acc l g, length l < fuel →
    ∃ out, pick_until_LookupError pick fuel acc (mk l) g
           = Some (Returns out, mk [], mkRng (tape g) (cursor g + length l)).
Proof.
  intros Hnil Hcons fuel.
  induction fuel as [|fuel IH]; intros acc l g Hlen; [lia|].
  cbn [pick_until_LookupError].
  destruct (decide (l = [])) as [->|Hl].
  - rewrite Hnil. exists acc. destruct g. simpl. by rewrite Nat.add_0_r.
  - destruct (Hcons l g Hl) as (i & x & Hi & ->).
    pose proof (lookup_lt_Some _ _ _ Hi) as Hlt.
    destruct (IH (acc ++ [x]) (delete i l) (_randbelow (length l) g).2)
      as [out ->].
    { rewrite length_delete by done. lia. }
    exists out. simpl. rewrite length_delete by done.
    do 3 f_equal. lia.
Qed.

(** X15: A [BingoCage] reads the random source when it is loaded, one draw less
    than it then holds items, and never when it picks: the picks are the
    stored sequence from its end.  A [LotteryBlower] and a [TomboList] read
    one draw for each item picked, and none for the pick that fails. *)
Theorem picks_and_the_random_source l g fuel :
  length l < fuel →
  (BingoCage_init l g).2 = mkRng (tape g) (cursor g + (length l - 1))
  ∧ pick_until_LookupError BingoCage_pick fuel [] (mkBingoCage l) g
    = Some (Returns (reverse l), mkBingoCage [], g)
  ∧ (∃ out,
       pick_until_LookupError LotteryBlower_pick fuel [] (mkLotteryBlower l) g
       = Some (Returns out, mkLotteryBlower [],
               mkRng (tape g) (cursor g + length l)))
  ∧ (∃ out,
       pick_until_LookupError TomboList_pick fuel [] l g
       = Some (Returns out, [], mkRng (tape g) (cursor g + length l))).
Proof.
  intros Hlen. split_and!.
  - unfold BingoCage_init, BingoCage_load, list_extend. simpl.
    pose proof (shuffle_from_draws (length l - 1) l g) as Hd.
    unfold shuffle. by destruct (shuffle_from (length l - 1) l g).
  - by rewrite pick_until_LookupError_BingoCage.
  - by apply (index_drain_draws mkLotteryBlower);
      [apply LotteryBlower_pick_nil | apply LotteryBlower_pick_cons |].
  - by apply (index_drain_draws id);
      [apply TomboList_pick_nil | apply TomboList_pick_cons |].
Qed.
End random_source_facts.

(** * The further properties at sample data *)

Lemma every_pick_order_is_possible_witness :
  [3; 2; 1; 1]%Z ≡ₚ sample_items
  ∧ length sample_items < 5
  ∧ (∃ g cage g1,
       BingoCage_init sample_items g = (Returns (), cage, g1)
       ∧ ∀ g2, pick_until_LookupError BingoCage_pick 5 [] cage g2
               = Some (Returns [3; 2; 1; 1]%Z, mkBingoCage [], g2))
  ∧ (∃ g g',
       pick_until_LookupError LotteryBlower_pick 5 []
         (LotteryBlower_init sample_items) g
       = Some (Returns [3; 2; 1; 1]%Z, mkLotteryBlower [], g'))
  ∧ (∃ g g',
       pick_until_LookupError TomboList_pick 5 []
         (TomboList_init sample_items) g
       = Some (Returns [3; 2; 1; 1]%Z, [], g')).
Proof.
  assert ([3; 2; 1; 1]%Z ≡ₚ sample_items) as Hp.
  { unfold sample_items. by apply (bool_decide_unpack _). }
  split; [exact Hp|]. split; [simpl; lia|].
  apply (every_pick_order_is_possible sample_items [3; 2; 1; 1]%Z 5 Hp).
  simpl; lia.
Defined.

Lemma inspect_loop_needs_LookupError_witness :
  (∀ self g, ∃ x self' g', Fake_pick self g = (Returns x, self', g'))
  ∧ ∀ fuel items self g,
      pick_until_LookupError Fake_pick fuel items self g = None.
Proof.
  assert (∀ self g, ∃ x self' g', Fake_pick self g = (Returns x, self', g'))
    as Hpick.
  { intros self g. exists 13%Z, self, g. reflexivity. }
  split; [exact Hpick|].
  apply (inspect_loop_needs_LookupError Fake_pick Hpick).
Defined.

Lemma inherited_methods_on_conforming_subclass_witness :
  lossless _items (@BingoCage_pick Z)
  ∧ conserving _items (@BingoCage_load Z)
  ∧ length sample_items < 5
  ∧ (∃ self' g',
       Tombola_inspect Z.le 5 (mkBingoCage sample_items) sample_rng
       = Some (Returns (sorted Z.le sample_items), self', g')
       ∧ _items self' ≡ₚ sample_items)
  ∧ (∃ self' g',
       Tombola_loaded Z.le 5 (mkBingoCage sample_items) sample_rng
       = Some (Returns (bool_of_seq sample_items), self', g')
       ∧ _items self' ≡ₚ sample_items).
Proof.
  split; [apply BingoCage_pick_lossless|].
  split; [apply BingoCage_load_conserving|].
  split; [simpl; lia|].
  apply (inherited_methods_on_conforming_subclass Z.le
           (HT := BingoCage_Tombola) _items 5 (mkBingoCage sample_items)
           sample_rng BingoCage_pick_lossless BingoCage_load_conserving).
  simpl; lia.
Defined.

Lemma LotteryBlower_overrides_agree_witness :
  length sample_items < 5
  ∧ (∃ blower' g',
       Tombola_inspect Z.le 5 (mkLotteryBlower sample_items) sample_rng
       = Some ((LotteryBlower_inspect Z.le (mkLotteryBlower sample_items)
                  sample_rng).1.1, blower', g')
       ∧ _balls blower' ≡ₚ sample_items)
  ∧ (∃ blower' g',
       Tombola_loaded Z.le 5 (mkLotteryBlower sample_items) sample_rng
       = Some ((LotteryBlower_loaded (mkLotteryBlower sample_items)
                  sample_rng).1.1, blower', g')
       ∧ _balls blower' ≡ₚ sample_items).
Proof.
  split; [simpl; lia|].
  apply (LotteryBlower_overrides_agree Z.le sample_items sample_rng 5).
  simpl; lia.
Defined.

Lemma picks_and_the_random_source_witness :
  length sample_items < 5
  ∧ (BingoCage_init sample_items sample_rng).2
    = mkRng (tape sample_rng) (cursor sample_rng + (length sample_items - 1))
  ∧ pick_until_LookupError BingoCage_pick 5 [] (mkBingoCage sample_items)
      sample_rng
    = Some (Returns (reverse sample_items), mkBingoCage [], sample_rng)
  ∧ (∃ out,
       pick_until_LookupError LotteryBlower_pick 5 []
         (mkLotteryBlower sample_items) sample_rng
       = Some (Returns out, mkLotteryBlower [],
               mkRng (tape sample_rng)
                 (cursor sample_rng + length sample_items)))
  ∧ (∃ out,
       pick_until_LookupError TomboList_pick 5 [] sample_items sample_rng
       = Some (Returns out, [],
               mkRng (tape sample_rng)
                 (cursor sample_rng + length sample_items))).
Proof.
  split; [simpl; lia|].
  apply (picks_and_the_random_source sample_items sample_rng 5).
  simpl; lia.
Defined.
